(** * Confinement acquisition and name matching of the jail custody checker

    A shallow embedding of [src/jail_api.py] (class [JailAPIClient]), of the
    parts of [src/models.py] it uses ([Defendant], [CustodyResult]) and of
    [check_custody_for_all] of [src/main.py].

    Conventions of the embedding.
    - A Python [str] is a [string]: a sequence of code points below 256
      (the Latin-1 range); [py_isspace] and [py_lower] follow [str.isspace]
      and [str.lower] on that range.
    - [Optional[str]] is [option string]; a [dict] keyed by strings is a
      [gmap string _].
    - A method that may raise returns an [Outcome]; methods of the client
      thread the client object explicitly.
    - The network is a [World]: what the handshake and each page request
      answer, and the instant at which each page fetch completes. *)

From Stdlib Require Import Ascii String NArith ZArith List Lia.
From stdpp Require Import base option list strings gmap fin_maps sorting.


(** ** Python string operations *)

Module PyStr.

Definition chars (s : string) : list ascii := list_ascii_of_string s.
Definition str (l : list ascii) : string := string_of_list_ascii l.

(** [str.isspace] on one code point below 256: TAB..CR, FS..US, space,
    NEL and the no-break space. *)
Definition py_isspace (c : ascii) : bool :=
  let n := N_of_ascii c in
  ((9 <=? n) && (n <=? 13) || (28 <=? n) && (n <=? 32)
   || (n =? 133) || (n =? 160))%N.

(** [str.lower] on one code point below 256: A..Z and the accented
    capitals U+00C0..U+00DE (the multiplication sign U+00D7 has no case). *)
Definition lower_char (c : ascii) : ascii :=
  let n := N_of_ascii c in
  if ((65 <=? n) && (n <=? 90)
      || (192 <=? n) && (n <=? 222) && negb (n =? 215))%N
  then ascii_of_N (n + 32) else c.

Definition py_lower (s : string) : string := str (map lower_char (chars s)).

Fixpoint lstrip_chars (l : list ascii) : list ascii :=
  match l with
  | c :: l' => if py_isspace c then lstrip_chars l' else l
  | [] => []
  end.

(** [s.strip()]: leading and trailing whitespace removed. *)
Definition py_strip (s : string) : string :=
  str (rev (lstrip_chars (rev (lstrip_chars (chars s))))).

Definition flush (cur : list ascii) : list string :=
  match cur with [] => [] | _ => [str (rev cur)] end.

Fixpoint split_go (cur : list ascii) (l : list ascii) : list string :=
  match l with
  | [] => flush cur
  | c :: l' =>
      if py_isspace c then flush cur ++ split_go [] l'
      else split_go (c :: cur) l'
  end.

(** [s.split()]: the maximal runs of non-whitespace, in order. *)
Definition py_split (s : string) : list string := split_go [] (chars s).

(** [sep.join(parts)]. *)
Definition py_join (sep : string) (parts : list string) : string :=
  String.concat sep parts.

(** Truth value of a string: non-empty. *)
Definition truthy (s : string) : bool :=
  match s with EmptyString => false | String _ _ => true end.

(** [needle in hay]. *)
Fixpoint py_in (needle hay : string) : bool :=
  String.prefix needle hay
  || match hay with
     | EmptyString => false
     | String _ hay' => py_in needle hay'
     end.

Fixpoint after_prefix (p s : string) : option string :=
  match p, s with
  | EmptyString, _ => Some s
  | String a p', String b s' =>
      if Ascii.eqb a b then after_prefix p' s' else None
  | String _ _, EmptyString => None
  end.

Definition is_digit (c : ascii) : bool :=
  let n := N_of_ascii c in ((48 <=? n) && (n <=? 57))%N.

Fixpoint take_digits (s : string) : string :=
  match s with
  | String c s' => if is_digit c then String c (take_digits s') else ""
  | EmptyString => ""
  end.

(** [re.search(prefix + r'(\d+)', s)], group 1: the digits that follow the
    leftmost occurrence of [prefix] that is followed by a digit. *)
Fixpoint search_digits_after (prefix s : string) : option string :=
  let here :=
    match after_prefix prefix s with
    | Some rest =>
        match take_digits rest with
        | EmptyString => None
        | d => Some d
        end
    | None => None
    end in
  match here with
  | Some d => Some d
  | None =>
      match s with
      | EmptyString => None
      | String _ s' => search_digits_after prefix s'
      end
  end.

End PyStr.
Import PyStr.

(** ** Identity normalizer: [JailAPIClient._normalize_name] *)

Definition _normalize_name (last first middle : string) : string :=
  let parts := [last; first] ++ (if truthy middle then [middle] else []) in
  py_join " " (map (fun p => py_strip (py_lower p)) (filter (fun p => truthy p = true) parts)).

(** The spec's reading of a key: lowercased and whitespace-collapsed (every
    run of whitespace becomes one space, none at the ends). *)
Definition ws_collapsed (s : string) : string := py_join " " (py_split (py_lower s)).

(** ** Data model: [src/models.py] and the inmate dictionary *)

Module Defendant.
Record t := {
  last_name : string;
  first_name : string;
  middle_name : option string;
  matter_number : option string;
  case_number : option string
}.

(** [self.middle_name or ""]. *)
Definition middle (d : t) : string := default "" (middle_name d).

Definition full_name (d : t) : string :=
  if truthy (middle d)
  then last_name d +:+ ", " +:+ first_name d +:+ " " +:+ middle d
  else last_name d +:+ ", " +:+ first_name d.

(** [(first, middle or "", last)]. *)
Definition search_name (d : t) : string * string * string :=
  (first_name d, middle d, last_name d).
End Defendant.

(** The dictionary [inmate_data] built for one booking card. *)
Module Inmate.
Record t := {
  full_name : string;
  first_name : string;
  middle_name : string;
  last_name : string;
  booking_date : option string;
  arrest_datetime : option string;
  arresting_agency : option string;
  bond_amount : option string;
  charges : option string;
  mugshot_url : option string;
  booking_number : option string
}.

#[global] Instance eq_dec : EqDecision t.
Proof. solve_decision. Defined.
End Inmate.

(** [CustodyResult], without [query_timestamp] (the clock is not modelled). *)
Module CustodyResult.
Record t := {
  defendant_name : string;
  matter_number : option string;
  case_number : option string;
  in_custody : bool;
  booking_number : option string;
  booking_date : option string;
  custody_location : option string;
  charges_at_booking : option string;
  bond_amount : option string;
  mugshot_url : option string;
  error_message : option string
}.
End CustodyResult.

(** ** What a page contains: the queries the extractor makes on a card *)

(** One [div.detail-row]: the text of its [span.detail-label] and of its
    [span.detail-value], when present. *)
Record DetailRow := {
  detail_label : option string;
  detail_value : option string
}.

(** One [div.charge-item]: its [div.charge-details] when present, and in it
    the text of the first [div] when present. *)
Record ChargeItem := { charge_details : option (option string) }.

Record Card := {
  h5 : option string;                      (* text of the first h5 *)
  detail_rows : list DetailRow;
  charge_items : list ChargeItem;
  booking_mugshot : option (option string); (* img.booking-mugshot, its src *)
  anchors : list string                    (* href of each a, in order *)
}.

(** A [div.booking-card] of the page: either its queries answer ([Parsed]),
    or reading it raises inside the [try] of the loop, with [str(e) = msg]. *)
Inductive Block :=
| Parsed (card : Card)
| Faulty (msg : string).

(** ** Outcomes and the network *)

(** A call either returns or raises an [Exception] whose [str] is [msg]. *)
Inductive Outcome (A : Type) : Type :=
| Returns (a : A)
| Raises (msg : string).
Arguments Returns {A} a.
Arguments Raises {A} msg.

(** One attempt of the transport on a request: the connection fails or times
    out, or the server answers (a final response, with its status, whether
    it carries a Retry-After header, and the booking cards of its body). *)
Inductive Attempt :=
| NetError (msg : string)
| Reply (status : Z) (retry_after : bool) (cards : list Block).

Record Response := {
  status_code : Z;
  booking_cards : list Block
}.

Inductive Request :=
| GetMainPage
| PostConfinements (page_idx : nat).

#[global] Instance Request_eq_dec : EqDecision Request.
Proof. solve_decision. Defined.

Record World := {
  (** the n-th GET of the main page: answered ([None]) or raised *)
  handshake : nat -> option string;
  (** the answer to the n-th attempt of the POST for a page *)
  wire : nat -> nat -> Attempt;
  (** the instant at which the fetch of a page completes *)
  finish : nat -> nat
}.

(** ** Transport: the [Retry] strategy mounted on the session

    [__init__] builds the strategy; the loop that applies it is urllib3's
    and is written here from its documented behaviour. *)

Record Retry := {
  total : nat;
  status_forcelist : list Z;
  allowed_methods : list string;
  backoff_factor : Z
}.

Definition retry_strategy (max_retries : nat) : Retry := {|
  total := max_retries;
  status_forcelist := [429; 502; 503; 504]%Z;  (* Don't retry 500s *)
  allowed_methods := ["HEAD"; "GET"; "POST"; "OPTIONS"];
  backoff_factor := 2
|}.

(** urllib3's [Retry.is_retry]: the method is allowed and the status is
    forced, or the response carries Retry-After with status 413, 429 or 503
    and [total] is not zero. *)
Definition is_retry (r : Retry) (method : string) (status : Z) (has_retry_after : bool) : bool :=
  bool_decide (method ∈ allowed_methods r)
  && (bool_decide (status ∈ status_forcelist r)
      || negb (total r =? 0)%nat && has_retry_after
         && bool_decide (status ∈ [413; 429; 503]%Z)).

(** The strategy after some retries were consumed: [total] decremented. *)
Definition with_total (r : Retry) (k : nat) : Retry := {|
  total := k;
  status_forcelist := status_forcelist r;
  allowed_methods := allowed_methods r;
  backoff_factor := backoff_factor r
|}.

(** The adapter sending one POST ([answers n] is what attempt [n] meets,
    [retries_left] the [total] still allowed): each failed attempt consumes
    one retry; when none is left the error is raised. POST is among the
    allowed methods, so read errors are retried like connection errors.
    Returns the outcome and the number of attempts made. *)
Fixpoint send (r : Retry) (answers : nat -> Attempt) (n : nat) (retries_left : nat)
  : Outcome Response * nat :=
  match answers n with
  | NetError msg =>
      match retries_left with
      | O => (Raises msg, S n)
      | S k => send r answers (S n) k
      end
  | Reply status ra cards =>
      if is_retry (with_total r retries_left) "POST" status ra then
        match retries_left with
        | O => (Raises "too many error responses", S n)
        | S k => send r answers (S n) k
        end
      else (Returns {| status_code := status; booking_cards := cards |}, S n)
  end.

Definition session_post (w : World) (max_retries : nat) (page_idx : nat)
  : Outcome Response * nat :=
  send (retry_strategy max_retries) (wire w page_idx) 0 (total (retry_strategy max_retries)).

(** ** Page fetcher: [JailAPIClient._fetch_single_page] *)

(** The loop over the detail rows: later rows overwrite earlier ones. *)
Record Details := {
  d_booking_date : option string;
  d_arrest_datetime : option string;
  d_arresting_agency : option string;
  d_bond_amount : option string
}.

Definition read_row (d : Details) (row : DetailRow) : Details :=
  match detail_label row, detail_value row with
  | Some label_elem, Some value_elem =>
      let label := py_strip label_elem in
      let value := py_strip value_elem in
      if py_in "Booked:" label then
        {| d_booking_date := Some value; d_arrest_datetime := d_arrest_datetime d;
           d_arresting_agency := d_arresting_agency d; d_bond_amount := d_bond_amount d |}
      else if py_in "Arrest Date/Time:" label then
        {| d_booking_date := d_booking_date d; d_arrest_datetime := Some value;
           d_arresting_agency := d_arresting_agency d; d_bond_amount := d_bond_amount d |}
      else if py_in "Arresting Agency:" label then
        {| d_booking_date := d_booking_date d; d_arrest_datetime := d_arrest_datetime d;
           d_arresting_agency := Some value; d_bond_amount := d_bond_amount d |}
      else if py_in "Bond Total:" label then
        {| d_booking_date := d_booking_date d; d_arrest_datetime := d_arrest_datetime d;
           d_arresting_agency := d_arresting_agency d; d_bond_amount := Some value |}
      else d
  | _, _ => d
  end.

Definition read_rows (rows : list DetailRow) : Details :=
  fold_left read_row rows
    {| d_booking_date := None; d_arrest_datetime := None;
       d_arresting_agency := None; d_bond_amount := None |}.

Definition charges_list (items : list ChargeItem) : list string :=
  flat_map (fun item =>
              match charge_details item with
              | Some (Some charge_text) => [py_strip charge_text]
              | _ => []
              end) items.

Definition read_charges (items : list ChargeItem) : option string :=
  match charges_list items with
  | [] => None
  | l => Some (py_join "; " l)
  end.

Definition read_booking_number (hrefs : list string) : option string :=
  match List.find (py_in "BookingID=") hrefs with
  | Some href => search_digits_after "BookingID=" href
  | None => None
  end.

(** What the body of the loop does with one card. *)
Inductive CardResult :=
| Skipped                                         (* [continue] *)
| Failed (msg : string)                           (* raised, caught, logged *)
| Extracted (keys : list string) (inmate_data : Inmate.t).

Definition parse_card (b : Block) : CardResult :=
  match b with
  | Faulty msg => Failed msg
  | Parsed card =>
      match h5 card with
      | None => Skipped
      | Some header =>
          let full_name := py_strip header in
          let name_parts := py_split full_name in
          if (length name_parts <? 2)%nat then Skipped
          else
            let first_name := hd "" name_parts in
            let last_name := List.last name_parts "" in
            let middle_name :=
              if (2 <? length name_parts)%nat
              then py_join " " (removelast (tl name_parts)) else "" in
            let d := read_rows (detail_rows card) in
            let keys :=
              [ _normalize_name last_name first_name middle_name;
                _normalize_name last_name first_name "" ] in
            Extracted keys
              {| Inmate.full_name := full_name;
                 Inmate.first_name := first_name;
                 Inmate.middle_name := middle_name;
                 Inmate.last_name := last_name;
                 Inmate.booking_date := d_booking_date d;
                 Inmate.arrest_datetime := d_arrest_datetime d;
                 Inmate.arresting_agency := d_arresting_agency d;
                 Inmate.bond_amount := d_bond_amount d;
                 Inmate.charges := read_charges (charge_items card);
                 Inmate.mugshot_url := mjoin (booking_mugshot card);
                 Inmate.booking_number := read_booking_number (anchors card) |}
      end
  end.

(** [for key in keys: inmates[key] = inmate_data]. *)
Definition store (inmates : gmap string Inmate.t) (keys : list string) (inmate_data : Inmate.t)
  : gmap string Inmate.t :=
  fold_left (fun m key => <[key := inmate_data]> m) keys inmates.

Definition add_card (inmates : gmap string Inmate.t) (b : Block) : gmap string Inmate.t :=
  match parse_card b with
  | Extracted keys inmate_data => store inmates keys inmate_data
  | Skipped | Failed _ => inmates
  end.

Definition parse_cards (cards : list Block) : gmap string Inmate.t :=
  fold_left add_card cards ∅.

(** Returns the page's dictionary, or raises what the POST raised; the
    second component is the number of requests put on the wire. The rate
    limiter only delays the request and is not modelled. *)
Definition _fetch_single_page (w : World) (max_retries : nat) (page_idx : nat)
  : Outcome (gmap string Inmate.t) * nat :=
  match session_post w max_retries page_idx with
  | (Raises msg, n) => (Raises msg, n)
  | (Returns response, n) =>
      if bool_decide (status_code response ≠ 200%Z) then (Returns ∅, n)
      else match booking_cards response with
           | [] => (Returns ∅, n)
           | cards => (Returns (parse_cards cards), n)
           end
  end.

(** ** Roster acquirer: [JailAPIClient._fetch_current_confinements] *)

(** The two counters of a batch, as logged when the batch ends. *)
Record Tally := {
  pages_with_data : nat;
  empty_pages : nat
}.

(** The client object. [delay_seconds], [timeout] and [last_request_time]
    only concern timing and are left out. [sent] and [batches] are ghost
    fields: the requests put on the wire so far, and the tallies logged at
    the end of each batch. *)
Record Client := {
  max_retries : nat;
  _session_initialized : bool;
  _current_inmates : option (gmap string Inmate.t);
  sent : list Request;
  batches : list Tally
}.

(** [JailAPIClient(max_retries=n)]. *)
Definition JailAPIClient (n : nat) : Client := {|
  max_retries := n;
  _session_initialized := false;
  _current_inmates := None;
  sent := [];
  batches := []
|}.

(** A method of the client: from the client before the call to the outcome
    and the client after it. *)
Definition Exec (A : Type) : Type := Client -> Outcome A * Client.

#[global] Instance Exec_ret : MRet Exec := fun A a c => (Returns a, c).
#[global] Instance Exec_bind : MBind Exec := fun A B f m c =>
  match m c with
  | (Returns a, c') => f a c'
  | (Raises msg, c') => (Raises msg, c')
  end.

(** [try: body except Exception as e: handler(str(e))]. *)
Definition try_except {A} (body : Exec A) (handler : string -> Exec A) : Exec A :=
  fun c =>
    match body c with
    | (Returns a, c') => (Returns a, c')
    | (Raises msg, c') => handler msg c'
    end.

Definition batch_size : nat := 20.
Definition max_batches : nat := 3.

Definition finishes_before (w : World) (p q : nat) : Prop := finish w p <= finish w q.

#[global] Instance finishes_before_dec (w : World) : RelDecision (finishes_before w).
Proof. intros p q. unfold finishes_before. apply _. Defined.

(** [as_completed]: the futures in the order in which they finish. *)
Definition as_completed (w : World) (pages : list nat) : list nat :=
  merge_sort (finishes_before w) pages.

(** State of the loop that collects one batch. *)
Record Collect := {
  inmates : gmap string Inmate.t;
  tally : Tally;
  wire_log : list Request
}.

(** Body of [for future in as_completed(future_to_page)]. *)
Definition collect (w : World) (retries : nat) (st : Collect) (page_idx : nat) : Collect :=
  let '(result, n) := _fetch_single_page w retries page_idx in
  let log := wire_log st ++ replicate n (PostConfinements page_idx) in
  let with_data := pages_with_data (tally st) in
  let empty := empty_pages (tally st) in
  match result with
  | Returns page_inmates =>
      if bool_decide (page_inmates ≠ ∅) then
        {| inmates := page_inmates ∪ inmates st;   (* inmates.update(page_inmates) *)
           tally := {| pages_with_data := with_data + 1; empty_pages := empty |};
           wire_log := log |}
      else
        {| inmates := inmates st;
           tally := {| pages_with_data := with_data; empty_pages := empty + 1 |};
           wire_log := log |}
  | Raises _ =>
      {| inmates := inmates st;
         tally := {| pages_with_data := with_data; empty_pages := empty + 1 |};
         wire_log := log |}
  end.

Definition run_batch (w : World) (retries : nat) (current_batch_start : nat)
    (acc : gmap string Inmate.t) (log : list Request) : Collect :=
  fold_left (collect w retries)
    (as_completed w (seq current_batch_start batch_size))
    {| inmates := acc;
       tally := {| pages_with_data := 0; empty_pages := 0 |};
       wire_log := log |}.

(** [for batch_num in range(max_batches)], on the batches still to run. *)
Fixpoint run_batches (w : World) (retries : nat) (remaining : nat)
    (current_batch_start : nat) (acc : gmap string Inmate.t)
    (log : list Request) (tallies : list Tally)
  : gmap string Inmate.t * list Request * list Tally :=
  match remaining with
  | O => (acc, log, tallies)
  | S k =>
      let b := run_batch w retries current_batch_start acc log in
      let tallies' := tallies ++ [tally b] in
      if (empty_pages (tally b) =? batch_size)%nat
      then (inmates b, wire_log b, tallies')                       (* break *)
      else run_batches w retries k (current_batch_start + batch_size)
             (inmates b) (wire_log b) tallies'
  end.

Section Methods.
Variable w : World.

Definition _ensure_session_initialized : Exec unit := fun c =>
  if _session_initialized c then (Returns (), c)
  else
    let n := length (filter (fun r => r = GetMainPage) (sent c)) in
    match handshake w n with
    | None =>
        (Returns (),
         {| max_retries := max_retries c; _session_initialized := true;
            _current_inmates := _current_inmates c;
            sent := sent c ++ [GetMainPage]; batches := batches c |})
    | Some msg =>
        (Raises msg,
         {| max_retries := max_retries c; _session_initialized := false;
            _current_inmates := _current_inmates c;
            sent := sent c ++ [GetMainPage]; batches := batches c |})
    end.

Definition fetch_all_pages : Exec (gmap string Inmate.t) := fun c =>
  let '(all, log, tallies) :=
    run_batches w (max_retries c) max_batches 1 ∅ (sent c) (batches c) in
  (Returns all,
   {| max_retries := max_retries c;
      _session_initialized := _session_initialized c;
      _current_inmates := Some all;              (* self._current_inmates = inmates *)
      sent := log; batches := tallies |}).

Definition _fetch_current_confinements : Exec (gmap string Inmate.t) := fun c =>
  match _current_inmates c with
  | Some cached => (Returns cached, c)
  | None => (_ ← _ensure_session_initialized; fetch_all_pages) c
  end.

(** ** Custody matcher: [JailAPIClient.check_custody] *)

(** [for key in lookup_keys: if key in inmates: ... return]. *)
Fixpoint first_hit (roster : gmap string Inmate.t) (lookup_keys : list string)
  : option Inmate.t :=
  match lookup_keys with
  | [] => None
  | key :: rest =>
      match roster !! key with
      | Some inmate => Some inmate
      | None => first_hit roster rest
      end
  end.

Definition matched (defendant : Defendant.t) (inmate : Inmate.t) : CustodyResult.t := {|
  CustodyResult.defendant_name := Defendant.full_name defendant;
  CustodyResult.matter_number := Defendant.matter_number defendant;
  CustodyResult.case_number := Defendant.case_number defendant;
  CustodyResult.in_custody := true;
  CustodyResult.booking_number := Inmate.booking_number inmate;
  CustodyResult.booking_date := Inmate.booking_date inmate;
  CustodyResult.custody_location := Some "Dorchester County Detention Center";
  CustodyResult.charges_at_booking := Inmate.charges inmate;
  CustodyResult.bond_amount := Inmate.bond_amount inmate;
  CustodyResult.mugshot_url := Inmate.mugshot_url inmate;
  CustodyResult.error_message := None
|}.

Definition not_found (defendant : Defendant.t) (error : option string) : CustodyResult.t := {|
  CustodyResult.defendant_name := Defendant.full_name defendant;
  CustodyResult.matter_number := Defendant.matter_number defendant;
  CustodyResult.case_number := Defendant.case_number defendant;
  CustodyResult.in_custody := false;
  CustodyResult.booking_number := None;
  CustodyResult.booking_date := None;
  CustodyResult.custody_location := None;
  CustodyResult.charges_at_booking := None;
  CustodyResult.bond_amount := None;
  CustodyResult.mugshot_url := None;
  CustodyResult.error_message := error
|}.

Definition check_custody (defendant : Defendant.t) : Exec CustodyResult.t :=
  let '(first_name, middle_name, last_name) := Defendant.search_name defendant in
  try_except
    (roster ← _fetch_current_confinements;
     let lookup_keys :=
       [ _normalize_name last_name first_name middle_name;
         _normalize_name last_name first_name "" ] in
     match first_hit roster lookup_keys with
     | Some inmate => mret (matched defendant inmate)
     | None => mret (not_found defendant None)
     end)
    (fun e => mret (not_found defendant (Some ("Error: " +:+ e)))).

(** [check_custody_for_all] of [src/main.py]. *)
Fixpoint check_custody_loop (defendants : list Defendant.t) (results : list CustodyResult.t)
  : Exec (list CustodyResult.t) :=
  match defendants with
  | [] => mret results
  | defendant :: rest =>
      result ← check_custody defendant;
      check_custody_loop rest (results ++ [result])
  end.

Definition check_custody_for_all (defendants : list Defendant.t) : Exec (list CustodyResult.t) :=
  check_custody_loop defendants [].

End Methods.

(** ** Vocabulary of the properties *)

(** A block the extractor leaves out: reading it raises, its name is
    missing, or its name has fewer than two tokens. *)
Definition dropped (b : Block) : Prop :=
  match b with
  | Faulty _ => True
  | Parsed card =>
      match h5 card with
      | None => True
      | Some header => length (py_split header) < 2
      end
  end.

(** The verdict carries the booking detail of a roster record. *)
Definition carries (v : CustodyResult.t) (inmate : Inmate.t) : Prop :=
  CustodyResult.in_custody v = true
  /\ CustodyResult.booking_number v = Inmate.booking_number inmate
  /\ CustodyResult.booking_date v = Inmate.booking_date inmate
  /\ CustodyResult.charges_at_booking v = Inmate.charges inmate
  /\ CustodyResult.bond_amount v = Inmate.bond_amount inmate
  /\ CustodyResult.mugshot_url v = Inmate.mugshot_url inmate.

Definition no_booking_detail (v : CustodyResult.t) : Prop :=
  CustodyResult.booking_number v = None
  /\ CustodyResult.booking_date v = None
  /\ CustodyResult.custody_location v = None
  /\ CustodyResult.charges_at_booking v = None
  /\ CustodyResult.bond_amount v = None
  /\ CustodyResult.mugshot_url v = None.

(** A page that counts as empty in a batch: its fetch raised, or returned
    an empty dictionary. *)
Definition page_is_empty (w : World) (retries : nat) (page_idx : nat) : bool :=
  match fst (_fetch_single_page w retries page_idx) with
  | Returns records => bool_decide (records = ∅)
  | Raises _ => true
  end.

(** The requests the fetch of one page puts on the wire. *)
Definition posts (w : World) (retries : nat) (page_idx : nat) : list Request :=
  replicate (snd (_fetch_single_page w retries page_idx)) (PostConfinements page_idx).

Fixpoint count_pages (f : nat -> bool) (pages : list nat) : nat :=
  match pages with
  | [] => 0
  | p :: rest => (if f p then 1 else 0) + count_pages f rest
  end.

(** The pages of the batch numbered [k], counting from 0. *)
Definition batch_pages (k : nat) : list nat := seq (1 + k * batch_size) batch_size.

Definition batch_all_empty (w : World) (retries : nat) (k : nat) : bool :=
  forallb (page_is_empty w retries) (batch_pages k).

Definition batch_tally (w : World) (retries : nat) (k : nat) : Tally := {|
  pages_with_data := count_pages (fun p => negb (page_is_empty w retries p)) (batch_pages k);
  empty_pages := count_pages (page_is_empty w retries) (batch_pages k)
|}.

(** Later calls of the acquirer, each facing the network as it then is. *)
Fixpoint subsequent_calls (worlds : list World) (c : Client)
  : list (Outcome (gmap string Inmate.t)) * Client :=
  match worlds with
  | [] => ([], c)
  | w :: rest =>
      let '(o, c1) := _fetch_current_confinements w c in
      let '(os, c2) := subsequent_calls rest c1 in
      (o :: os, c2)
  end.

(** An attempt the transport answers by trying again when [retries_left]
    retries remain: a connection error or timeout, or a reply that
    [is_retry] selects. *)
Definition transient (retries_left : nat) (a : Attempt) : bool :=
  match a with
  | NetError _ => true
  | Reply status ra _ => is_retry (retry_strategy retries_left) "POST" status ra
  end.

(** ** Sample inputs *)

Definition named_card (name : string) : Card := {|
  h5 := Some name;
  detail_rows := [ {| detail_label := Some "Booked:"; detail_value := Some " 10/27/2025 " |};
                   {| detail_label := Some "Bond Total:"; detail_value := Some "$5,000.00" |} ];
  charge_items := [ {| charge_details := Some (Some " DUI ") |};
                    {| charge_details := Some (Some "Trespassing") |} ];
  booking_mugshot := Some (Some "mugshots/4711.jpg");
  anchors := ["index.php"; "details.php?AgencyID=DorchesterCoSC&BookingID=4711"]
|}.

Definition nameless_card : Card := {|
  h5 := None;
  detail_rows := [];
  charge_items := [];
  booking_mugshot := None;
  anchors := []
|}.

Definition sample_page : list Block :=
  [Parsed (named_card "Avery Arron Adams"); Parsed nameless_card].

(** The handshake is answered; page 1 holds [sample_page], page 2 answers
    503 once and then holds nothing, every other page holds nothing; pages
    finish in the reverse of their submission order. *)
Definition sample_world : World := {|
  handshake := fun _ => None;
  wire := fun page_idx n =>
            if (page_idx =? 1)%nat then Reply 200 false sample_page
            else if (page_idx =? 2)%nat && (n =? 0)%nat then Reply 503 false []
            else Reply 200 false [];
  finish := fun page_idx => 100 - page_idx
|}.

(** Every POST is answered with status 500. *)
Definition world_500 : World := {|
  handshake := fun _ => None;
  wire := fun _ _ => Reply 500 false [];
  finish := fun page_idx => page_idx
|}.

(** Nothing answers: the handshake raises. *)
Definition offline_world : World := {|
  handshake := fun _ => Some "connection refused";
  wire := fun _ _ => NetError "connection refused";
  finish := fun page_idx => page_idx
|}.

Definition avery_adams : Defendant.t := {|
  Defendant.last_name := "ADAMS";
  Defendant.first_name := "AVERY";
  Defendant.middle_name := Some "ARRON";
  Defendant.matter_number := None;
  Defendant.case_number := Some "2024GS001"
|}.

Definition sample_roster : gmap string Inmate.t := parse_cards sample_page.

Definition sample_client : Client :=
  snd (_fetch_current_confinements sample_world (JailAPIClient 3)).

(** * The rest of the code: vocabulary *)

(** A token of [str.split()]: not empty and without whitespace. *)
Definition is_token (s : string) : Prop :=
  s <> "" /\ forallb (fun c => negb (py_isspace c)) (chars s) = true.

(** Truth value of an [Optional[str]]: neither [None] nor empty. *)
Definition opt_truthy (o : option string) : bool :=
  match o with
  | Some s => truthy s
  | None => false
  end.

(** The verdict reports a failed acquisition. *)
Definition is_error (v : CustodyResult.t) : bool :=
  opt_truthy (CustodyResult.error_message v).

(** The GETs of the main page and the POSTs of pages among the requests a
    client has sent. *)
Definition handshakes (c : Client) : nat :=
  length (List.filter (fun r => bool_decide (r = GetMainPage)) (sent c)).

Definition page_posts (c : Client) : nat :=
  length (List.filter (fun r => bool_decide (r <> GetMainPage)) (sent c)).

(** The loop of [check_custody_for_all], subject by subject: from client
    [c], the subjects [ds] get the verdicts [vs] and leave client [c']. *)
Inductive Runs (w : World) : Client -> list Defendant.t -> list CustodyResult.t -> Client -> Prop :=
| Runs_nil (c : Client) : Runs w c [] [] c
| Runs_cons (c c1 c' : Client) (d : Defendant.t) (ds : list Defendant.t)
            (v : CustodyResult.t) (vs : list CustodyResult.t) :
    check_custody w d c = (Returns v, c1) ->
    Runs w c1 ds vs c' ->
    Runs w c (d :: ds) (v :: vs) c'.

(** Every key of the roster is one of the two keys of the record it leads
    to, and that record has a first and a last name. *)
Definition keyed_by_name (roster : gmap string Inmate.t) : Prop :=
  forall k v, roster !! k = Some v ->
    (k = _normalize_name (Inmate.last_name v) (Inmate.first_name v) (Inmate.middle_name v)
     \/ k = _normalize_name (Inmate.last_name v) (Inmate.first_name v) "")
    /\ is_token (Inmate.first_name v)
    /\ is_token (Inmate.last_name v).

(** All the characters are decimal digits. *)
Definition all_digits (s : string) : bool := forallb is_digit (chars s).

(** The first character, if any, is not a decimal digit. *)
Definition no_digit_ahead (s : string) : bool :=
  match s with
  | EmptyString => true
  | String c _ => negb (is_digit c)
  end.

(** What one detail row says about the booking date: its stripped value
    when the row has both spans and its stripped label contains "Booked:". *)
Definition booked_value (row : DetailRow) : option string :=
  match detail_label row, detail_value row with
  | Some label_elem, Some value_elem =>
      if py_in "Booked:" (py_strip label_elem) then Some (py_strip value_elem) else None
  | _, _ => None
  end.

(** A detail row the loop passes over: a span is missing, or the label
    contains none of the four known labels. *)
Definition ignored_row (row : DetailRow) : Prop :=
  match detail_label row, detail_value row with
  | Some label_elem, Some _ =>
      py_in "Booked:" (py_strip label_elem) = false
      /\ py_in "Arrest Date/Time:" (py_strip label_elem) = false
      /\ py_in "Arresting Agency:" (py_strip label_elem) = false
      /\ py_in "Bond Total:" (py_strip label_elem) = false
  | _, _ => True
  end.

(** Two verdicts agree on everything but the identity of their subject. *)
Definition same_finding (v1 v2 : CustodyResult.t) : Prop :=
  CustodyResult.in_custody v1 = CustodyResult.in_custody v2
  /\ CustodyResult.booking_number v1 = CustodyResult.booking_number v2
  /\ CustodyResult.booking_date v1 = CustodyResult.booking_date v2
  /\ CustodyResult.custody_location v1 = CustodyResult.custody_location v2
  /\ CustodyResult.charges_at_booking v1 = CustodyResult.charges_at_booking v2
  /\ CustodyResult.bond_amount v1 = CustodyResult.bond_amount v2
  /\ CustodyResult.mugshot_url v1 = CustodyResult.mugshot_url v2
  /\ CustodyResult.error_message v1 = CustodyResult.error_message v2.

(** Two names differ in letter case or surrounding whitespace only. *)
Definition same_name (a b : string) : Prop :=
  py_strip (py_lower a) = py_strip (py_lower b).

(** The verdict is about the subject: it has the subject's full name,
    matter number and case number. *)
Definition about (d : Defendant.t) (v : CustodyResult.t) : Prop :=
  CustodyResult.defendant_name v = Defendant.full_name d
  /\ CustodyResult.matter_number v = Defendant.matter_number d
  /\ CustodyResult.case_number v = Defendant.case_number d.

(** The verdicts a batch returned. *)
Definition verdicts_of (run : Outcome (list CustodyResult.t) * Client) : list CustodyResult.t :=
  match fst run with
  | Returns vs => vs
  | Raises _ => []
  end.

(** The handshake times out twice and is answered the third time; the
    pages are those of [sample_world]. *)
Definition flaky_world : World := {|
  handshake := fun n => if (n <? 2)%nat then Some "timed out" else None;
  wire := wire sample_world;
  finish := finish sample_world
|}.

Definition flaky_run : Outcome (list CustodyResult.t) * Client :=
  check_custody_for_all flaky_world
    [avery_adams; avery_adams; avery_adams; avery_adams] (JailAPIClient 3).

(** * Models: the rest of [src/models.py] *)

(** A [Defendant] with the fields the matcher does not read: [Defendant.t]
    holds the names, the matter number and the case number, [Docket.t] adds
    the charges, the incident date and the case status. *)
Module Docket.
Record t := {
  defendant : Defendant.t;
  charges : option string;
  incident_date : option string;
  case_status : option string
}.
End Docket.

(** [Defendant.validate_name_not_empty], the validator of [last_name] and
    [first_name]. *)
Definition validate_name_not_empty (v : string) : Outcome string :=
  if negb (truthy v) || negb (truthy (py_strip v))
  then Raises "Name fields cannot be empty"
  else Returns (py_strip v).

(** [Defendant(last_name=.., first_name=.., ...)]: the two names go
    through the validator, the other fields are stored as given. The text
    raised stands for the report of the validation error. *)
Definition new_Defendant (last_name first_name : string)
    (middle_name matter_number case_number charges incident_date case_status : option string)
  : Outcome Docket.t :=
  match validate_name_not_empty last_name, validate_name_not_empty first_name with
  | Returns last, Returns first =>
      Returns {| Docket.defendant :=
                   {| Defendant.last_name := last;
                      Defendant.first_name := first;
                      Defendant.middle_name := middle_name;
                      Defendant.matter_number := matter_number;
                      Defendant.case_number := case_number |};
                 Docket.charges := charges;
                 Docket.incident_date := incident_date;
                 Docket.case_status := case_status |}
  | Raises msg, _ => Raises msg
  | _, Raises msg => Raises msg
  end.

(** [CustodyResult.status_summary]. *)
Definition status_summary (r : CustodyResult.t) : string :=
  if opt_truthy (CustodyResult.error_message r) then
    "ERROR: " +:+ default "" (CustodyResult.error_message r)
  else if CustodyResult.in_custody r then
    if opt_truthy (CustodyResult.booking_date r) then
      "IN CUSTODY - Booked: " +:+ default "" (CustodyResult.booking_date r)
    else "IN CUSTODY"
  else "NOT IN CUSTODY".

(** [CustodyReport], without [search_date]. *)
Module CustodyReport.
Record t := {
  source_file : option string;
  defendants_checked : list Docket.t;
  custody_results : list CustodyResult.t
}.

Definition total_defendants (r : t) : nat := length (defendants_checked r).

Definition in_custody_count (r : t) : nat :=
  length (List.filter CustodyResult.in_custody (custody_results r)).

Definition not_in_custody_count (r : t) : nat :=
  length (List.filter (fun v => negb (CustodyResult.in_custody v)) (custody_results r)).

Definition error_count (r : t) : nat :=
  length (List.filter (fun v => opt_truthy (CustodyResult.error_message v)) (custody_results r)).

Definition get_in_custody_list (r : t) : list CustodyResult.t :=
  List.filter CustodyResult.in_custody (custody_results r).
End CustodyReport.

(** The report [main] builds: the subjects parsed from the input file are
    checked one by one with the client, and the report keeps the subjects
    and their verdicts. *)
Definition build_report (w : World) (source : string) (defendants : list Docket.t)
  : Exec CustodyReport.t :=
  custody_results ← check_custody_for_all w (map Docket.defendant defendants);
  mret {| CustodyReport.source_file := Some source;
          CustodyReport.defendants_checked := defendants;
          CustodyReport.custody_results := custody_results |}.

(** * Parsers: [src/parsers.py] *)

(** [s.split(',', 1)] on a string that contains a comma: what stands before
    the first comma and what stands after it. *)
Fixpoint split_at_comma (s : string) : string * string :=
  match s with
  | EmptyString => ("", "")
  | String c s' =>
      if Ascii.eqb c "," then ("", s')
      else let '(before, after) := split_at_comma s' in (String c before, after)
  end.

(** [parse_defendant_name]: (first, middle, last). *)
Definition parse_defendant_name (name_str : string) : string * string * string :=
  let name_str := py_strip name_str in
  if py_in "," name_str then
    let '(part0, part1) := split_at_comma name_str in
    let last_name := py_strip part0 in
    let first_middle := py_strip part1 in
    let name_parts := py_split first_middle in
    if (2 <=? length name_parts)%nat then
      (hd "" name_parts, py_join " " (tl name_parts), last_name)
    else if (length name_parts =? 1)%nat then
      (hd "" name_parts, "", last_name)
    else ("", "", last_name)
  else
    let parts := py_split name_str in
    if (3 <=? length parts)%nat then
      (hd "" parts, py_join " " (removelast (tl parts)), List.last parts "")
    else if (length parts =? 2)%nat then
      (hd "" parts, "", nth 1 parts "")
    else if (length parts =? 1)%nat then
      ("", "", hd "" parts)
    else ("", "", "").

(** The end of [parse_pdf_file]: duplicates are dropped, the first
    occurrence of each (last name, first name, case number) being kept. *)
Definition dedup_key (d : Docket.t) : string * string * option string :=
  (py_lower (Defendant.last_name (Docket.defendant d)),
   py_lower (Defendant.first_name (Docket.defendant d)),
   Defendant.case_number (Docket.defendant d)).

Fixpoint unique_loop (defendants : list Docket.t)
    (seen : gset (string * string * option string)) : list Docket.t :=
  match defendants with
  | [] => []
  | d :: rest =>
      if bool_decide (dedup_key d ∉ seen)
      then d :: unique_loop rest ({[dedup_key d]} ∪ seen)
      else unique_loop rest seen
  end.

Definition unique_defendants (defendants : list Docket.t) : list Docket.t :=
  unique_loop defendants ∅.

(** One case line of a page of the worklist, as [parse_pdf_file] has it
    once the words are selected by position: the case number without its
    trailing commas, the matter number found on the line, and the texts of
    the words of the defendant column from left to right. *)
Record CaseLine := {
  case_no : string;
  matter_no : option string;
  defendant_words : list string
}.

(** The three reasons the loop records for a failed extraction. *)
Inductive FailReason :=
| NoNameInColumn        (* 'No defendant name found in expected column' *)
| EmptyName             (* 'Defendant name was empty after extraction' *)
| NameParsingFailed.    (* 'Name parsing failed - first=..., last=...' *)

(** What the loop does with one case line: a subject, or a failed
    extraction with its reason. *)
Inductive Extraction :=
| Subject (d : Docket.t)
| FailedExtraction (reason : FailReason).

Definition extract_case (line : CaseLine) : Outcome Extraction :=
  match defendant_words line with
  | [] => Returns (FailedExtraction NoNameInColumn)
  | words =>
      let defendant_name := py_join " " words in
      if negb (truthy defendant_name) || negb (truthy (py_strip defendant_name)) then
        Returns (FailedExtraction EmptyName)
      else
        let '(first, middle, last) := parse_defendant_name defendant_name in
        if negb (truthy first && truthy (py_strip first)
                 && truthy last && truthy (py_strip last)) then
          Returns (FailedExtraction NameParsingFailed)
        else
          match new_Defendant last first (Some (if truthy middle then middle else ""))
                  (matter_no line) (Some (case_no line)) None None None with
          | Returns d => Returns (Subject d)
          | Raises msg => Raises msg
          end
  end.

Fixpoint extract_cases (lines : list CaseLine) (defendants : list Docket.t)
  : Outcome (list Docket.t) :=
  match lines with
  | [] => Returns defendants
  | line :: rest =>
      match extract_case line with
      | Returns (Subject d) => extract_cases rest (defendants ++ [d])
      | Returns (FailedExtraction _) => extract_cases rest defendants
      | Raises msg => Raises msg
      end
  end.

(** [parse_pdf_file] from the case lines of all the pages on: extraction,
    removal of duplicates, and the [except] that turns any exception into a
    ValueError. *)
Definition parse_pdf_lines (lines : list CaseLine) : Outcome (list Docket.t) :=
  match extract_cases lines [] with
  | Returns defendants => Returns (unique_defendants defendants)
  | Raises msg => Raises ("Error parsing PDF file: " +:+ msg)
  end.

(** [str.upper] on one code point below 256, as code points: a..z and the
    accented small letters U+00E0..U+00FE lose 32 (the division sign U+00F7
    has no case), the sharp s becomes "SS", the micro sign and the y with
    diaeresis leave the range (U+039C, U+0178). *)
Definition upper_codes (c : ascii) : list N :=
  let n := N_of_ascii c in
  if ((97 <=? n) && (n <=? 122)
      || (224 <=? n) && (n <=? 254) && negb (n =? 247))%N then [(n - 32)%N]
  else if (n =? 223)%N then [83%N; 83%N]
  else if (n =? 181)%N then [924%N]
  else if (n =? 255)%N then [376%N]
  else [n].

Definition py_upper_codes (s : string) : list N := flat_map upper_codes (chars s).

Definition codes (s : string) : list N := map N_of_ascii (chars s).

Fixpoint codes_prefix (p l : list N) : bool :=
  match p, l with
  | [], _ => true
  | a :: p', b :: l' => (a =? b)%N && codes_prefix p' l'
  | _ :: _, [] => false
  end.

(** [needle in hay] on code points. *)
Fixpoint codes_in (needle hay : list N) : bool :=
  codes_prefix needle hay
  || match hay with
     | [] => false
     | _ :: hay' => codes_in needle hay'
     end.

(** The table [pd.read_csv] returns: its column names and its rows, a row
    giving for each column the text [str(value)] of its cell, or nothing
    when the cell is NaN or the column is absent. *)
Record DataFrame := {
  columns : list string;
  rows : list (gmap string string)
}.

(** [str(row.get(col, '')).strip() if pd.notna(row.get(col)) else None]. *)
Definition cell (row : gmap string string) (col : string) : option string :=
  py_strip <$> row !! col.

(** The name of a row the loop does not pass over: the cell is not NaN nor
    blank, and is neither the report's title line nor the header line. *)
Definition kept_name (row : gmap string string) : option string :=
  match row !! "Defendants" with
  | None => None
  | Some text =>
      if negb (truthy (py_strip text)) then None
      else
        let defendant_name := py_strip text in
        if codes_in (codes "ACTIVE CASES") (py_upper_codes defendant_name)
           || String.eqb defendant_name "Defendants"
        then None
        else Some defendant_name
  end.

(** Body of the loop over the rows: nothing for a row passed over, the
    subject of the row otherwise; the constructor may raise. *)
Definition parse_csv_row (row : gmap string string) : Outcome (option Docket.t) :=
  match kept_name row with
  | None => Returns None
  | Some defendant_name =>
      let '(first, middle, last) := parse_defendant_name defendant_name in
      if negb (truthy last) then Returns None
      else
        match new_Defendant last first (Some middle) None
                (cell row "CaseNumbers") (cell row "Title")
                (cell row "InitiatedOn") (cell row "CaseStatus") with
        | Returns d => Returns (Some d)
        | Raises msg => Raises msg
        end
  end.

Fixpoint parse_csv_rows (rs : list (gmap string string)) (defendants : list Docket.t)
  : Outcome (list Docket.t) :=
  match rs with
  | [] => Returns defendants
  | row :: rest =>
      match parse_csv_row row with
      | Returns (Some d) => parse_csv_rows rest (defendants ++ [d])
      | Returns None => parse_csv_rows rest defendants
      | Raises msg => Raises msg
      end
  end.

(** [parse_csv_file] from the table on: the check of the column, the loop,
    and the [except] that turns any exception into a ValueError. *)
Definition parse_csv_frame (df : DataFrame) : Outcome (list Docket.t) :=
  let body :=
    if bool_decide ("Defendants" ∉ columns df)
    then Raises "CSV file must contain 'Defendants' column"
    else parse_csv_rows (rows df) [] in
  match body with
  | Returns defendants => Returns defendants
  | Raises msg => Raises ("Error parsing CSV file: " +:+ msg)
  end.

Definition sample_frame : DataFrame := {|
  columns := ["CaseNumbers"; "Title"; "Defendants"; "InitiatedOn"];
  rows := [ {[ "CaseNumbers" := "2024GS001"; "Defendants" := "Smith, John Michael" ]};
            {[ "Defendants" := "Active Cases By Assigned Personnel" ]};
            {[ "CaseNumbers" := "2024GS002"; "Defendants" := "Cher" ]} ]
|}.

(** * Reports: [src/reports.py] *)

(** What a GET of a mugshot meets: an exception, or a reply with its
    status and its content. *)
Inductive GetOutcome :=
| GetRaises (msg : string)
| GetReply (status : Z) (content : list Byte.byte).

(** [_download_mugshot]: the bytes of the image, or None. *)
Definition _download_mugshot (get : string -> GetOutcome) (url : string)
  : option (list Byte.byte) :=
  if negb (truthy url) then None
  else match get url with
       | GetReply status content =>
           if bool_decide (status = 200%Z) then Some content else None
       | GetRaises _ => None
       end.

(** The URLs collected from the verdicts: [mugshot_urls]. *)
Definition collect_url (urls : gset string) (result : CustodyResult.t) : gset string :=
  if CustodyResult.in_custody result && opt_truthy (CustodyResult.mugshot_url result)
  then {[ default "" (CustodyResult.mugshot_url result) ]} ∪ urls
  else urls.

Definition mugshot_urls (results : list CustodyResult.t) : gset string :=
  fold_left collect_url results ∅.

(** Body of the loop over the completed downloads. *)
Definition keep_image (get : string -> GetOutcome) (images : gmap string (list Byte.byte))
    (url : string) : gmap string (list Byte.byte) :=
  match _download_mugshot get url with
  | Some (b :: image_bytes) => <[url := b :: image_bytes]> images
  | Some [] | None => images
  end.

(** The image the loop keeps for a URL: the bytes downloaded, when there
    are any. *)
Definition kept_image (get : string -> GetOutcome) (url : string)
  : option (list Byte.byte) :=
  match _download_mugshot get url with
  | Some (b :: image_bytes) => Some (b :: image_bytes)
  | Some [] | None => None
  end.

Definition done_before (done : string -> nat) (u v : string) : Prop := done u <= done v.

#[global] Instance done_before_dec (done : string -> nat) : RelDecision (done_before done).
Proof. intros u v. unfold done_before. apply _. Defined.

(** [_download_mugshots_parallel]; [done] gives the instant at which the
    download of a URL completes. *)
Definition _download_mugshots_parallel (get : string -> GetOutcome) (done : string -> nat)
    (results : list CustodyResult.t) : gmap string (list Byte.byte) :=
  let urls := mugshot_urls results in
  if bool_decide (urls = ∅) then ∅
  else fold_left (keep_image get) (merge_sort (done_before done) (elements urls)) ∅.

(** The sort key of the sheet of all results:
    [(not r.in_custody, r.defendant_name)]. *)
Definition sort_key (r : CustodyResult.t) : bool * string :=
  (negb (CustodyResult.in_custody r), CustodyResult.defendant_name r).

(** Order of the keys: False before True, then the names by code points. *)
Definition key_le (a b : bool * string) : Prop :=
  match fst a, fst b with
  | false, true => True
  | true, false => False
  | _, _ => String.le (snd a) (snd b)
  end.

#[global] Instance key_le_dec : RelDecision key_le.
Proof.
  intros [[] a] [[] b]; unfold key_le; cbn [fst snd]; apply _.
Defined.

(** [sorted(results, key=...)]: a stable sort, here by insertion from the
    right, an element going before the first one whose key is not smaller. *)
Fixpoint insert_sorted (r : CustodyResult.t) (l : list CustodyResult.t)
  : list CustodyResult.t :=
  match l with
  | [] => [r]
  | x :: l' =>
      if decide (key_le (sort_key r) (sort_key x)) then r :: x :: l'
      else x :: insert_sorted r l'
  end.

Definition sorted_results (results : list CustodyResult.t) : list CustodyResult.t :=
  fold_right insert_sorted [] results.

(** The defendant whose charges and case status the in-custody sheet shows
    beside a verdict: the first one with the verdict's name and case
    number. *)
Definition find_defendant (defendants_checked : list Docket.t) (result : CustodyResult.t)
  : option Docket.t :=
  List.find (fun d =>
               String.eqb (Defendant.full_name (Docket.defendant d))
                 (CustodyResult.defendant_name result)
               && bool_decide (Defendant.case_number (Docket.defendant d)
                               = CustodyResult.case_number result))
    defendants_checked.

Definition original_charges_and_status (defendants_checked : list Docket.t)
    (result : CustodyResult.t) : option string * option string :=
  match find_defendant defendants_checked result with
  | Some d => (Docket.charges d, Docket.case_status d)
  | None => (None, None)
  end.

(** What the in-custody sheet compares: a subject's full name and case
    number. *)
Definition name_and_case (d : Docket.t) : string * option string :=
  (Defendant.full_name (Docket.defendant d), Defendant.case_number (Docket.defendant d)).

Definition sample_dockets : list Docket.t :=
  [ {| Docket.defendant := avery_adams; Docket.charges := Some "Burglary";
       Docket.incident_date := None; Docket.case_status := Some "Pending" |};
    {| Docket.defendant :=
         {| Defendant.last_name := "Smith"; Defendant.first_name := "John";
            Defendant.middle_name := None; Defendant.matter_number := None;
            Defendant.case_number := Some "2024GS002" |};
       Docket.charges := Some "Theft"; Docket.incident_date := None;
       Docket.case_status := None |} ].

Definition sample_report_run : Outcome CustodyReport.t * Client :=
  build_report flaky_world "worklist.pdf" sample_dockets (JailAPIClient 3).

(** * Properties *)

(** ** Strings *)

Lemma lstrip_chars_split (l : list ascii) :
  exists ws, l = ws ++ lstrip_chars l /\ forallb py_isspace ws = true.
Proof.
  induction l as [|c l (ws & Hl & Hws)].
  - exists []. split; reflexivity.
  - simpl. destruct (py_isspace c) eqn:Ec.
    + exists (c :: ws). split; [simpl; f_equal; exact Hl | simpl; rewrite Ec; exact Hws].
    + exists []. split; reflexivity.
Qed.

Lemma split_go_spaces (cur ws : list ascii) :
  forallb py_isspace ws = true -> split_go cur ws = flush cur.
Proof.
  revert cur. induction ws as [|c ws IH]; intros cur H; [reflexivity|].
  simpl in H. apply andb_true_iff in H as [Hc Hws].
  simpl. rewrite Hc, (IH [] Hws). simpl. apply app_nil_r.
Qed.

Lemma split_go_app_spaces (l ws : list ascii) :
  forallb py_isspace ws = true ->
  forall cur, split_go cur (l ++ ws) = split_go cur l.
Proof.
  intros Hws. induction l as [|c l IH]; intros cur.
  - simpl. apply split_go_spaces. exact Hws.
  - simpl. destruct (py_isspace c); rewrite IH; reflexivity.
Qed.

Lemma split_go_spaces_app (ws l : list ascii) :
  forallb py_isspace ws = true -> split_go [] (ws ++ l) = split_go [] l.
Proof.
  induction ws as [|c ws IH]; intros H; [reflexivity|].
  simpl in H. apply andb_true_iff in H as [Hc Hws].
  simpl. rewrite Hc. simpl. apply IH. exact Hws.
Qed.

Lemma forallb_rev (f : ascii -> bool) (l : list ascii) :
  forallb f (rev l) = forallb f l.
Proof.
  induction l as [|c l IH]; [reflexivity|].
  simpl. rewrite forallb_app, IH. simpl. rewrite andb_true_r. apply andb_comm.
Qed.

(** Stripping does not change the tokens. *)
Lemma py_split_strip (s : string) : py_split (py_strip s) = py_split s.
Proof.
  unfold py_split, py_strip, str, chars.
  rewrite list_ascii_of_string_of_list_ascii.
  destruct (lstrip_chars_split (list_ascii_of_string s)) as (ws1 & H1 & Hws1).
  destruct (lstrip_chars_split (rev (lstrip_chars (list_ascii_of_string s))))
    as (ws2 & H2 & Hws2).
  rewrite H1 at 2. rewrite (split_go_spaces_app _ _ Hws1).
  apply (f_equal (@rev ascii)) in H2. rewrite rev_involutive, rev_app_distr in H2.
  rewrite H2 at 2. rewrite split_go_app_spaces; [reflexivity|].
  rewrite forallb_rev. exact Hws2.
Qed.

(** ** Identity normalizer *)

Lemma normalize_name_unfold (last first middle : string) :
  last <> "" -> first <> "" ->
  _normalize_name last first middle =
    py_join " " ([py_strip (py_lower last); py_strip (py_lower first)]
                 ++ if truthy middle then [py_strip (py_lower middle)] else []).
Proof.
  intros Hl Hf. unfold _normalize_name.
  destruct last as [|a l]; [done|]. destruct first as [|b f]; [done|].
  destruct middle as [|c m]; reflexivity.
Qed.

(** A middle name made of whitespace only is kept as a part and stripped to
    nothing afterwards: the key ends with a space. *)
Example normalize_blank_middle :
  _normalize_name "Smith" "John" " " = "smith john "
  /\ _normalize_name "Smith" "John" "" = "smith john".
Proof. split; reflexivity. Qed.

(** C6 (as amended). [_normalize_name] is a function of its three arguments;
    for non-empty last and first names, two inputs whose components agree
    once lowercased and stripped of surrounding whitespace, and whose middle
    names are both empty or both non-empty, give the same key; and the two
    keys of the docstring are as stated. *)
Theorem normalize_case_and_surrounding_whitespace :
  (forall l1 f1 m1 l2 f2 m2 : string,
      l1 <> "" -> f1 <> "" -> l2 <> "" -> f2 <> "" ->
      py_strip (py_lower l1) = py_strip (py_lower l2) ->
      py_strip (py_lower f1) = py_strip (py_lower f2) ->
      py_strip (py_lower m1) = py_strip (py_lower m2) ->
      (m1 = "" <-> m2 = "") ->
      _normalize_name l1 f1 m1 = _normalize_name l2 f2 m2)
  /\ _normalize_name "Smith" "John" "Q" = "smith john q"
  /\ _normalize_name "ADAMS" "AVERY" "ARRON" = "adams avery arron".
Proof.
  split; [|split; reflexivity].
  intros l1 f1 m1 l2 f2 m2 Hl1 Hf1 Hl2 Hf2 El Ef Em Hm.
  rewrite !normalize_name_unfold by assumption.
  rewrite El, Ef, Em.
  destruct m1, m2; simpl; try reflexivity.
  - destruct Hm as [Hm _]. discriminate Hm; reflexivity.
  - destruct Hm as [_ Hm]. discriminate Hm; reflexivity.
Qed.

Lemma normalize_case_and_surrounding_whitespace_witness :
  _normalize_name " SMITH" "John  " "q" = _normalize_name "Smith" " JOHN" " Q ".
Proof.
  apply (proj1 normalize_case_and_surrounding_whitespace);
    try discriminate; try reflexivity.
  split; discriminate.
Defined.

(** C6 as stated fails: whitespace inside a component is not collapsed, so
    two middle names that differ only in whitespace give different keys. *)
Lemma normalize_not_whitespace_collapsed :
  ~ (forall l1 f1 m1 l2 f2 m2 : string,
        l1 <> "" -> f1 <> "" -> l2 <> "" -> f2 <> "" ->
        ws_collapsed l1 = ws_collapsed l2 ->
        ws_collapsed f1 = ws_collapsed f2 ->
        ws_collapsed m1 = ws_collapsed m2 ->
        _normalize_name l1 f1 m1 = _normalize_name l2 f2 m2).
Proof.
  intros H.
  specialize (H "Smith" "John" "Q  R" "Smith" "John" "Q R").
  discriminate H; try discriminate; reflexivity.
Qed.

(** ** Record extraction *)

Lemma name_parts_ends (first_tok last_tok : string) (interior : list string) :
  (length (first_tok :: interior ++ [last_tok]) <? 2)%nat = false
  /\ List.last (first_tok :: interior ++ [last_tok]) "" = last_tok
  /\ (if (2 <? length (first_tok :: interior ++ [last_tok]))%nat
      then py_join " " (removelast (tl (first_tok :: interior ++ [last_tok])))
      else "")
     = py_join " " interior.
Proof.
  split; [|split].
  - apply Nat.ltb_ge. cbn [length]. rewrite length_app. cbn [length]. lia.
  - change (first_tok :: interior ++ [last_tok]) with ((first_tok :: interior) ++ [last_tok]).
    apply last_last.
  - cbn [tl]. rewrite removelast_last.
    destruct interior as [|t ts]; [reflexivity|].
    replace (2 <? length (first_tok :: (t :: ts) ++ [last_tok]))%nat with true; [reflexivity|].
    symmetry. apply Nat.ltb_lt. cbn [length]. rewrite length_app. cbn [length]. lia.
Qed.

Lemma store_two (m : gmap string Inmate.t) (k1 k2 : string) (data : Inmate.t) :
  store m [k1; k2] data !! k1 = Some data /\ store m [k1; k2] data !! k2 = Some data.
Proof.
  unfold store. simpl. split.
  - destruct (decide (k2 = k1)) as [->|Hne].
    + apply lookup_insert_eq.
    + rewrite lookup_insert_ne by done. apply lookup_insert_eq.
  - apply lookup_insert_eq.
Qed.

Lemma parse_card_tokens (card : Card) (header first_tok last_tok : string)
    (interior : list string) :
  h5 card = Some header ->
  py_split (py_strip header) = first_tok :: interior ++ [last_tok] ->
  exists data,
    parse_card (Parsed card)
    = Extracted [ _normalize_name last_tok first_tok (py_join " " interior);
                  _normalize_name last_tok first_tok "" ] data
    /\ Inmate.first_name data = first_tok
    /\ Inmate.last_name data = last_tok
    /\ Inmate.middle_name data = py_join " " interior.
Proof.
  intros Hh Hs.
  destruct (name_parts_ends first_tok last_tok interior) as (Hlen & Hlast & Hmid).
  eexists. split.
  - unfold parse_card. rewrite Hh. cbv zeta. rewrite Hs, Hlen, Hlast, Hmid.
    reflexivity.
  - simpl. auto.
Qed.

Lemma add_card_extracted (roster : gmap string Inmate.t) (b : Block)
    (k1 k2 : string) (data : Inmate.t) :
  parse_card b = Extracted [k1; k2] data ->
  add_card roster b !! k1 = Some data /\ add_card roster b !! k2 = Some data.
Proof. intros H. unfold add_card. rewrite H. apply store_two. Qed.

(** C10. A display name of at least two tokens gives the record its first
    token as first name, its last token as last name and the interior
    tokens, joined, as middle name (empty for two tokens); the record is
    stored under the key of (last, first, middle) and the key of
    (last, first). *)
Theorem card_name_tokens (card : Card) (header first_tok last_tok : string)
    (interior : list string) :
  h5 card = Some header ->
  py_split header = first_tok :: interior ++ [last_tok] ->
  let key_full := _normalize_name last_tok first_tok (py_join " " interior) in
  let key_short := _normalize_name last_tok first_tok "" in
  exists data,
    parse_card (Parsed card) = Extracted [key_full; key_short] data
    /\ Inmate.first_name data = first_tok
    /\ Inmate.last_name data = last_tok
    /\ Inmate.middle_name data = py_join " " interior
    /\ (interior = [] -> Inmate.middle_name data = "")
    /\ forall roster : gmap string Inmate.t,
        add_card roster (Parsed card) !! key_full = Some data
        /\ add_card roster (Parsed card) !! key_short = Some data.
Proof.
  intros Hh Hs key_full key_short. rewrite <- py_split_strip in Hs.
  destruct (parse_card_tokens card header first_tok last_tok interior Hh Hs)
    as (data & Hp & Hf & Hl & Hm).
  exists data. repeat (split; [assumption|]). split.
  - intros ->. exact Hm.
  - intros roster. apply add_card_extracted. exact Hp.
Qed.

Lemma card_name_tokens_witness :
  exists data,
    parse_card (Parsed (named_card "Dalton Loren Adams"))
    = Extracted ["adams dalton loren"; "adams dalton"] data
    /\ Inmate.first_name data = "Dalton"
    /\ Inmate.last_name data = "Adams".
Proof.
  destruct (card_name_tokens (named_card "Dalton Loren Adams") "Dalton Loren Adams"
              "Dalton" "Adams" ["Loren"] eq_refl eq_refl)
    as (data & Hp & Hf & Hl & _).
  exists data. split; [exact Hp|]. split; assumption.
Defined.

(** C3 (as amended). The record of a block whose display name is
    "Adams Avery Arron" has first name Adams and last name Arron and is
    stored under "arron adams avery" and "arron adams"; it is the display
    name "Avery Arron Adams" that is stored under "adams avery arron" and
    "adams avery". *)
Theorem display_name_keys (card : Card) (roster : gmap string Inmate.t) :
  (h5 card = Some "Adams Avery Arron" ->
   exists data,
     parse_card (Parsed card) = Extracted ["arron adams avery"; "arron adams"] data
     /\ Inmate.first_name data = "Adams"
     /\ Inmate.last_name data = "Arron"
     /\ add_card roster (Parsed card) !! "arron adams avery" = Some data
     /\ add_card roster (Parsed card) !! "arron adams" = Some data)
  /\ (h5 card = Some "Avery Arron Adams" ->
      exists data,
        parse_card (Parsed card) = Extracted ["adams avery arron"; "adams avery"] data
        /\ Inmate.first_name data = "Avery"
        /\ Inmate.last_name data = "Adams"
        /\ add_card roster (Parsed card) !! "adams avery arron" = Some data
        /\ add_card roster (Parsed card) !! "adams avery" = Some data).
Proof.
  split; intros Hh.
  - destruct (parse_card_tokens card "Adams Avery Arron" "Adams" "Arron" ["Avery"]
                Hh eq_refl) as (data & Hp & Hf & Hl & _).
    exists data. change (_normalize_name "Arron" "Adams" (py_join " " ["Avery"]))
      with "arron adams avery" in Hp.
    change (_normalize_name "Arron" "Adams" "") with "arron adams" in Hp.
    repeat (split; [assumption|]). apply add_card_extracted. exact Hp.
  - destruct (parse_card_tokens card "Avery Arron Adams" "Avery" "Adams" ["Arron"]
                Hh eq_refl) as (data & Hp & Hf & Hl & _).
    exists data. change (_normalize_name "Adams" "Avery" (py_join " " ["Arron"]))
      with "adams avery arron" in Hp.
    change (_normalize_name "Adams" "Avery" "") with "adams avery" in Hp.
    repeat (split; [assumption|]). apply add_card_extracted. exact Hp.
Qed.

Lemma display_name_keys_witness :
  exists data,
    add_card ∅ (Parsed (named_card "Adams Avery Arron")) !! "arron adams" = Some data
    /\ Inmate.last_name data = "Arron".
Proof.
  destruct (proj1 (display_name_keys (named_card "Adams Avery Arron") ∅) eq_refl)
    as (data & _ & _ & Hl & _ & Hs).
  exists data. split; assumption.
Defined.

(** C3 as stated fails: the roster built from a block named
    "Adams Avery Arron" has neither the key "adams avery arron" nor the key
    "adams avery". *)
Lemma adams_avery_arron_not_under_adams :
  parse_cards [Parsed (named_card "Adams Avery Arron")] !! "adams avery arron" = None
  /\ parse_cards [Parsed (named_card "Adams Avery Arron")] !! "adams avery" = None.
Proof. split; vm_compute; reflexivity. Qed.

(** ** Page extraction *)

Lemma add_card_dropped (roster : gmap string Inmate.t) (b : Block) :
  dropped b -> add_card roster b = roster.
Proof.
  unfold dropped, add_card, parse_card.
  destruct b as [card|msg]; [|reflexivity].
  destruct (h5 card) as [header|]; [|reflexivity].
  intros Hlt. apply Nat.ltb_lt in Hlt. cbv zeta. rewrite py_split_strip, Hlt. reflexivity.
Qed.

Lemma parse_card_keys (b : Block) (keys : list string) (data : Inmate.t) :
  parse_card b = Extracted keys data -> exists k1 k2, keys = [k1; k2].
Proof.
  unfold parse_card. destruct b as [card|msg]; [|discriminate].
  destruct (h5 card) as [header|]; [|discriminate]. cbv zeta.
  destruct (length (py_split (py_strip header)) <? 2)%nat; [discriminate|].
  intros H. injection H as <- _. eauto.
Qed.








(** ** Custody matcher *)

Lemma check_custody_unfold (w : World) (d : Defendant.t) (c : Client) :
  check_custody w d c =
    match _fetch_current_confinements w c with
    | (Returns roster, c') =>
        (Returns
           match first_hit roster
                   [ _normalize_name (Defendant.last_name d) (Defendant.first_name d)
                       (default "" (Defendant.middle_name d));
                     _normalize_name (Defendant.last_name d) (Defendant.first_name d) "" ] with
           | Some inmate => matched d inmate
           | None => not_found d None
           end, c')
    | (Raises msg, c') => (Returns (not_found d (Some ("Error: " +:+ msg))), c')
    end.
Proof.
  unfold check_custody, Defendant.search_name, Defendant.middle, try_except.
  unfold mbind, Exec_bind, mret, Exec_ret.
  destruct (_fetch_current_confinements w c) as [[roster|msg] c']; [|reflexivity].
  destruct (first_hit roster _); reflexivity.
Qed.

(** C1. When the roster is obtained, [check_custody] probes the key of
    (last, first, middle) and then the key of (last, first): the first of
    them present gives a verdict in custody carrying that record's booking
    number, booking date, charges, bond amount and mugshot reference; when
    neither is present the verdict is not in custody and every booking
    detail is None. *)
Theorem check_custody_probes_two_keys (w : World) (d : Defendant.t) (c c' : Client)
    (roster : gmap string Inmate.t) :
  _fetch_current_confinements w c = (Returns roster, c') ->
  let key_full := _normalize_name (Defendant.last_name d) (Defendant.first_name d)
                    (default "" (Defendant.middle_name d)) in
  let key_short := _normalize_name (Defendant.last_name d) (Defendant.first_name d) "" in
  exists v,
    check_custody w d c = (Returns v, c')
    /\ (forall inmate, roster !! key_full = Some inmate -> carries v inmate)
    /\ (forall inmate, roster !! key_full = None -> roster !! key_short = Some inmate ->
          carries v inmate)
    /\ (roster !! key_full = None -> roster !! key_short = None ->
          CustodyResult.in_custody v = false /\ no_booking_detail v
          /\ CustodyResult.error_message v = None).
Proof.
  intros Hf key_full key_short.
  rewrite check_custody_unfold, Hf. eexists. split; [reflexivity|].
  cbn [first_hit]. fold key_full key_short.
  destruct (roster !! key_full) as [i1|] eqn:E1.
  - split; [|split]; [|discriminate..].
    intros inmate [= <-]. repeat split.
  - destruct (roster !! key_short) as [i2|] eqn:E2.
    + split; [|split]; [discriminate| |discriminate].
      intros inmate _ [= <-]. repeat split.
    + split; [|split]; [discriminate| discriminate |].
      intros _ _. repeat split.
Qed.

Lemma check_custody_probes_two_keys_witness :
  exists v,
    check_custody sample_world avery_adams (JailAPIClient 3) = (Returns v, sample_client)
    /\ CustodyResult.in_custody v = true
    /\ CustodyResult.booking_number v = Some "4711".
Proof.
  assert (_fetch_current_confinements sample_world (JailAPIClient 3)
          = (Returns sample_roster, sample_client)) as Hacq
    by (vm_compute; reflexivity).
  destruct (check_custody_probes_two_keys sample_world avery_adams (JailAPIClient 3)
              sample_client sample_roster Hacq)
    as (v & Hv & Hfull & _).
  exists v. split; [exact Hv|].
  destruct (sample_roster !! "adams avery arron") as [inmate|] eqn:E;
    [|vm_compute in E; discriminate E].
  destruct (Hfull inmate E) as (Hin & Hnum & _).
  split; [exact Hin|]. rewrite Hnum.
  vm_compute in E. injection E as <-. reflexivity.
Defined.

Lemma check_custody_returns (w : World) (d : Defendant.t) (c : Client) :
  exists v c', check_custody w d c = (Returns v, c').
Proof.
  rewrite check_custody_unfold.
  destruct (_fetch_current_confinements w c) as [[roster|msg] c']; eauto.
Qed.

Lemma check_custody_loop_returns (w : World) (ds : list Defendant.t) :
  forall (acc : list CustodyResult.t) (c : Client),
  exists vs c', check_custody_loop w ds acc c = (Returns vs, c')
                /\ length vs = length acc + length ds.
Proof.
  induction ds as [|d ds IH]; intros acc c.
  - exists acc, c. split; [reflexivity|]. simpl. lia.
  - destruct (check_custody_returns w d c) as (v & c1 & Hv).
    destruct (IH (acc ++ [v]) c1) as (vs & c2 & Hvs & Hlen).
    exists vs, c2. split.
    + cbn [check_custody_loop]. unfold mbind, Exec_bind. rewrite Hv. exact Hvs.
    + rewrite Hlen, length_app. simpl. lia.
Qed.

(** C2. [check_custody] returns a verdict from every client, for every
    subject and whatever the network does; when the acquisition of the
    roster raises, the verdict is not in custody and its error message is
    "Error: " followed by the text of the exception, hence not empty; and
    [check_custody_for_all] returns as many verdicts as it is given
    subjects. *)
Theorem check_custody_never_raises :
  (forall (w : World) (d : Defendant.t) (c : Client),
      exists v c',
        check_custody w d c = (Returns v, c')
        /\ forall msg c1,
            _fetch_current_confinements w c = (Raises msg, c1) ->
            CustodyResult.in_custody v = false
            /\ CustodyResult.error_message v = Some ("Error: " +:+ msg)
            /\ "Error: " +:+ msg <> ""
            /\ no_booking_detail v)
  /\ (forall (w : World) (defendants : list Defendant.t) (c : Client),
         exists verdicts c',
           check_custody_for_all w defendants c = (Returns verdicts, c')
           /\ length verdicts = length defendants).
Proof.
  split.
  - intros w d c. rewrite check_custody_unfold.
    destruct (_fetch_current_confinements w c) as [[roster|msg] c'].
    + eexists _, _. split; [reflexivity|]. discriminate.
    + eexists _, _. split; [reflexivity|].
      intros msg' c1 [= <- <-]. repeat split. discriminate.
  - intros w ds c. unfold check_custody_for_all.
    destruct (check_custody_loop_returns w ds [] c) as (vs & c' & H & Hlen).
    eauto.
Qed.

Lemma check_custody_never_raises_witness :
  exists v c',
    check_custody offline_world avery_adams (JailAPIClient 3) = (Returns v, c')
    /\ CustodyResult.in_custody v = false
    /\ CustodyResult.error_message v = Some "Error: connection refused".
Proof.
  destruct (proj1 check_custody_never_raises offline_world avery_adams (JailAPIClient 3))
    as (v & c' & Hv & Hraise).
  exists v, c'. split; [exact Hv|].
  destruct (Hraise "connection refused"
              (snd (_fetch_current_confinements offline_world (JailAPIClient 3)))
              eq_refl) as (Hin & Herr & _).
  split; assumption.
Defined.

(** ** Roster acquirer *)

Lemma count_pages_Permutation (f : nat -> bool) (l1 l2 : list nat) :
  l1 ≡ₚ l2 -> count_pages f l1 = count_pages f l2.
Proof. induction 1; simpl; lia. Qed.

Lemma count_pages_le (f : nat -> bool) (l : list nat) : count_pages f l <= length l.
Proof. induction l as [|p l IH]; simpl; [lia|]. destruct (f p); lia. Qed.

Lemma count_pages_full (f : nat -> bool) (l : list nat) :
  (count_pages f l =? length l)%nat = forallb f l.
Proof.
  induction l as [|p l IH]; [reflexivity|]. simpl.
  pose proof (count_pages_le f l) as Hle.
  destruct (f p); simpl.
  - exact IH.
  - apply Nat.eqb_neq. lia.
Qed.

Lemma forallb_Permutation (f : nat -> bool) (l1 l2 : list nat) :
  l1 ≡ₚ l2 -> forallb f l1 = forallb f l2.
Proof.
  induction 1; simpl; try congruence.
  destruct (f x), (f y); reflexivity.
Qed.

Section Batches.
Variables (w : World) (retries : nat).

Lemma collect_step (st : Collect) (p : nat) :
  empty_pages (tally (collect w retries st p))
    = empty_pages (tally st) + (if page_is_empty w retries p then 1 else 0)
  /\ pages_with_data (tally (collect w retries st p))
    = pages_with_data (tally st) + (if negb (page_is_empty w retries p) then 1 else 0)
  /\ wire_log (collect w retries st p) = wire_log st ++ posts w retries p
  /\ (page_is_empty w retries p = true -> inmates (collect w retries st p) = inmates st).
Proof.
  unfold collect, page_is_empty, posts.
  destruct (_fetch_single_page w retries p) as [[records|msg] n]; cbn [fst snd].
  - destruct (decide (records = ∅)) as [->|Hne].
    + rewrite bool_decide_eq_false_2 by (intros H; apply H; reflexivity).
      rewrite bool_decide_eq_true_2 by reflexivity. cbn. repeat split; lia.
    + rewrite bool_decide_eq_true_2 by exact Hne.
      rewrite bool_decide_eq_false_2 by exact Hne. cbn.
      repeat split; first [lia | discriminate].
  - cbn. repeat split; lia.
Qed.

Lemma collect_fold (pages : list nat) :
  forall st : Collect,
    empty_pages (tally (fold_left (collect w retries) pages st))
      = empty_pages (tally st) + count_pages (page_is_empty w retries) pages
    /\ pages_with_data (tally (fold_left (collect w retries) pages st))
      = pages_with_data (tally st)
        + count_pages (fun p => negb (page_is_empty w retries p)) pages
    /\ wire_log (fold_left (collect w retries) pages st)
      = wire_log st ++ flat_map (posts w retries) pages
    /\ (forallb (page_is_empty w retries) pages = true ->
        inmates (fold_left (collect w retries) pages st) = inmates st).
Proof.
  induction pages as [|p pages IH]; intros st.
  - simpl. rewrite app_nil_r. repeat split; lia.
  - cbn [fold_left count_pages flat_map forallb].
    destruct (IH (collect w retries st p)) as (He & Hd & Hl & Hi).
    destruct (collect_step st p) as (He1 & Hd1 & Hl1 & Hi1).
    rewrite He, Hd, Hl, He1, Hd1, Hl1. repeat split; try lia.
    + rewrite <- app_assoc. reflexivity.
    + intros H. apply andb_true_iff in H as [Hp Hrest].
      rewrite Hi by exact Hrest. apply Hi1. exact Hp.
Qed.

Lemma as_completed_Permutation (pages : list nat) : as_completed w pages ≡ₚ pages.
Proof. apply merge_sort_Permutation. Qed.

Lemma run_batch_spec (k : nat) (acc : gmap string Inmate.t) (log : list Request) :
  tally (run_batch w retries (1 + k * batch_size) acc log) = batch_tally w retries k
  /\ wire_log (run_batch w retries (1 + k * batch_size) acc log)
     ≡ₚ log ++ flat_map (posts w retries) (batch_pages k)
  /\ (empty_pages (tally (run_batch w retries (1 + k * batch_size) acc log)) =? batch_size)%nat
     = batch_all_empty w retries k
  /\ (batch_all_empty w retries k = true ->
      inmates (run_batch w retries (1 + k * batch_size) acc log) = acc).
Proof.
  unfold run_batch. fold (batch_pages k).
  pose proof (as_completed_Permutation (batch_pages k)) as Hperm.
  destruct (collect_fold (as_completed w (batch_pages k))
              {| inmates := acc;
                 tally := {| pages_with_data := 0; empty_pages := 0 |};
                 wire_log := log |}) as (He & Hd & Hl & Hi).
  cbn [tally inmates wire_log empty_pages pages_with_data] in He, Hd, Hl, Hi.
  rewrite (count_pages_Permutation _ _ _ Hperm) in He.
  rewrite (count_pages_Permutation _ _ _ Hperm) in Hd.
  rewrite (forallb_Permutation _ _ _ Hperm) in Hi.
  repeat split.
  - unfold batch_tally.
    destruct (tally (fold_left _ _ _)) as [d e]. cbn in He, Hd. subst. reflexivity.
  - rewrite Hl. apply Permutation_app_head.
    apply Permutation_flat_map. exact Hperm.
  - rewrite He. cbn [Nat.add].
    change batch_size with (length (batch_pages k)) at 1.
    apply count_pages_full.
  - exact Hi.
Qed.

Lemma run_batches_spec :
  forall (remaining k0 : nat) (acc : gmap string Inmate.t) (log : list Request)
         (tallies : list Tally),
    0 < remaining ->
    exists (n : nat) (roster : gmap string Inmate.t) (log' : list Request),
      run_batches w retries remaining (1 + k0 * batch_size) acc log tallies
      = (roster, log', tallies ++ map (batch_tally w retries) (seq k0 n))
      /\ 1 <= n <= remaining
      /\ log' ≡ₚ log ++ flat_map (posts w retries) (seq (1 + k0 * batch_size) (n * batch_size))
      /\ (forall k, k0 <= k < k0 + n ->
            (k = k0 + n - 1 <->
             batch_all_empty w retries k = true \/ k = k0 + remaining - 1))
      /\ (batch_all_empty w retries k0 = true -> n = 1 /\ roster = acc).
Proof.
  induction remaining as [|r IH]; intros k0 acc log tallies Hpos; [lia|].
  cbn [run_batches].
  destruct (run_batch_spec k0 acc log) as (Ht & Hl & He & Hi).
  set (b := run_batch w retries (1 + k0 * batch_size) acc log) in *.
  rewrite He, Ht.
  destruct (batch_all_empty w retries k0) eqn:E0.
  - (* the batch is entirely empty: break *)
    exists 1, (inmates b), (wire_log b).
    split; [reflexivity|]. split; [lia|]. split; [|split].
    + rewrite Nat.mul_1_l. exact Hl.
    + intros k Hk. replace k with k0 by lia. split; [auto | lia].
    + intros _. split; [reflexivity | apply Hi; reflexivity].
  - destruct r as [|r'].
    + (* the last batch allowed *)
      exists 1, (inmates b), (wire_log b).
      split; [reflexivity|]. split; [lia|]. split; [|split].
      * rewrite Nat.mul_1_l. exact Hl.
      * intros k Hk. split; [right; lia | lia].
      * discriminate.
    + replace (1 + k0 * batch_size + batch_size) with (1 + S k0 * batch_size) by lia.
      destruct (IH (S k0) (inmates b) (wire_log b)
                  (tallies ++ [batch_tally w retries k0]) ltac:(lia))
        as (n & roster & log' & Hrun & Hn & Hlog & Hstop & _).
      exists (S n), roster, log'.
      split; [|split; [lia|]; split; [|split]].
      * rewrite Hrun. rewrite <- app_assoc. reflexivity.
      * rewrite Hlog, Hl. rewrite <- app_assoc. apply Permutation_app_head.
        replace (S n * batch_size) with (batch_size + n * batch_size) by lia.
        rewrite seq_app, flat_map_app.
        replace (1 + k0 * batch_size + batch_size) with (1 + S k0 * batch_size) by lia.
        reflexivity.
      * intros k Hk. split.
        -- intros ->. destruct (Hstop (k0 + S n - 1) ltac:(lia)) as [Hs _].
           destruct (Hs ltac:(lia)) as [Hs1|Hs1]; [left; exact Hs1 | right; lia].
        -- intros [Hk1|Hk1]; [|lia].
           destruct (decide (k = k0)) as [->|Hne]; [congruence|].
           destruct (Hstop k ltac:(lia)) as [_ Hs]. specialize (Hs (or_introl Hk1)). lia.
      * discriminate.
Qed.

End Batches.

Lemma ensure_session_frame (w : World) (c c1 : Client) :
  _ensure_session_initialized w c = (Returns (), c1) ->
  max_retries c1 = max_retries c
  /\ _current_inmates c1 = _current_inmates c
  /\ batches c1 = batches c.
Proof.
  unfold _ensure_session_initialized.
  destruct (_session_initialized c).
  - intros [= <-]. auto.
  - destruct (handshake w _); [discriminate|]. intros [= <-]. auto.
Qed.

(** C4. Once the session is set up, an acquisition with an empty cache runs
    [n] batches, 1 <= n <= 3: it posts the pages 1 to 20 n and no other, it
    logs for each batch the number of its pages that held records and the
    number that held none (a page whose fetch raised holds none), it stops
    after a batch exactly when every page of the batch held none or the
    batch was the third; and when every page of the first batch holds none,
    n = 1 and the roster returned is the empty mapping. *)
Theorem acquisition_batches (w : World) (c c1 : Client) :
  _current_inmates c = None ->
  _ensure_session_initialized w c = (Returns (), c1) ->
  exists (n : nat) (roster : gmap string Inmate.t) (c' : Client),
    _fetch_current_confinements w c = (Returns roster, c')
    /\ 1 <= n <= max_batches
    /\ batches c' = batches c ++ map (batch_tally w (max_retries c)) (seq 0 n)
    /\ sent c' ≡ₚ sent c1 ++ flat_map (posts w (max_retries c)) (seq 1 (n * batch_size))
    /\ (forall k, k < n ->
          (k = n - 1 <->
           batch_all_empty w (max_retries c) k = true \/ k = max_batches - 1))
    /\ (batch_all_empty w (max_retries c) 0 = true -> n = 1 /\ roster = ∅).
Proof.
  intros Hcache Hens.
  destruct (ensure_session_frame w c c1 Hens) as (Hr & _ & Hb).
  destruct (run_batches_spec w (max_retries c) max_batches 0 ∅ (sent c1) (batches c)
              ltac:(unfold max_batches; lia))
    as (n & roster & log' & Hrun & Hn & Hlog & Hstop & Hfirst).
  change (1 + 0 * batch_size) with 1 in Hrun, Hlog.
  exists n, roster.
  eexists. split.
  - unfold _fetch_current_confinements. rewrite Hcache.
    unfold mbind, Exec_bind. rewrite Hens.
    unfold fetch_all_pages. rewrite Hr, Hb, Hrun. reflexivity.
  - cbn [batches sent]. split; [exact Hn|]. split; [reflexivity|]. split; [exact Hlog|].
    split; [|exact Hfirst].
    intros k Hk. apply (Hstop k). lia.
Qed.

Lemma acquisition_batches_witness :
  exists c',
    _fetch_current_confinements world_500 (JailAPIClient 3) = (Returns ∅, c')
    /\ length (batches c') = 1.
Proof.
  destruct (acquisition_batches world_500 (JailAPIClient 3)
              (snd (_ensure_session_initialized world_500 (JailAPIClient 3)))
              eq_refl eq_refl)
    as (n & roster & c' & Hf & _ & Hb & _ & _ & Hfirst).
  assert (batch_all_empty world_500 (max_retries (JailAPIClient 3)) 0 = true) as Hempty
    by (vm_compute; reflexivity).
  destruct (Hfirst Hempty) as [-> ->].
  exists c'. split; [exact Hf|]. rewrite Hb. reflexivity.
Defined.

Lemma fetch_cached (w : World) (c : Client) (roster : gmap string Inmate.t) :
  _current_inmates c = Some roster ->
  _fetch_current_confinements w c = (Returns roster, c).
Proof. intros H. unfold _fetch_current_confinements. rewrite H. reflexivity. Qed.

Lemma fetch_populates (w : World) (c c' : Client) (roster : gmap string Inmate.t) :
  _fetch_current_confinements w c = (Returns roster, c') ->
  _current_inmates c' = Some roster.
Proof.
  unfold _fetch_current_confinements.
  destruct (_current_inmates c) as [cached|] eqn:E.
  - intros [= <- <-]. exact E.
  - unfold mbind, Exec_bind.
    destruct (_ensure_session_initialized w c) as [[[]|msg] c1]; [|discriminate].
    unfold fetch_all_pages.
    destruct (run_batches _ _ _ _ _ _ _) as [[all log] tallies].
    intros [= <- <-]. reflexivity.
Qed.

(** C5. A call of [_fetch_current_confinements] that returns a roster leaves
    that roster in the cache, and every later call, whatever the network
    then does, returns the same roster and leaves the client as it was: no
    request is added to those already sent. *)
Theorem roster_acquisition_memoized (w : World) (c c' : Client)
    (roster : gmap string Inmate.t) :
  _fetch_current_confinements w c = (Returns roster, c') ->
  _current_inmates c' = Some roster
  /\ forall worlds : list World,
      subsequent_calls worlds c' = (replicate (length worlds) (Returns roster), c')
      /\ sent (snd (subsequent_calls worlds c')) = sent c'.
Proof.
  intros H. pose proof (fetch_populates w c c' roster H) as Hc. split; [exact Hc|].
  assert (forall worlds : list World,
             subsequent_calls worlds c' = (replicate (length worlds) (Returns roster), c'))
    as Hall.
  { induction worlds as [|w' ws IH]; [reflexivity|].
    cbn [subsequent_calls length replicate].
    rewrite (fetch_cached w' c' roster Hc), IH. reflexivity. }
  intros worlds. split; [apply Hall|]. rewrite Hall. reflexivity.
Qed.

Lemma roster_acquisition_memoized_witness :
  _current_inmates sample_client = Some sample_roster
  /\ subsequent_calls [offline_world; world_500] sample_client
     = ([Returns sample_roster; Returns sample_roster], sample_client).
Proof.
  assert (_fetch_current_confinements sample_world (JailAPIClient 3)
          = (Returns sample_roster, sample_client)) as Hacq
    by (vm_compute; reflexivity).
  destruct (roster_acquisition_memoized sample_world (JailAPIClient 3) sample_client
              sample_roster Hacq) as (Hc & Hlater).
  split; [exact Hc|]. exact (proj1 (Hlater [offline_world; world_500])).
Defined.

(** ** Transport *)

Section Send.
Variables (retries : nat) (answers : nat -> Attempt).

Lemma send_unfold (n left : nat) :
  send (retry_strategy retries) answers n left =
    if transient left (answers n) then
      match left with
      | O => (Raises match answers n with
                     | NetError msg => msg
                     | Reply _ _ _ => "too many error responses"
                     end, S n)
      | S k => send (retry_strategy retries) answers (S n) k
      end
    else match answers n with
         | NetError msg => (Raises msg, S n)
         | Reply status ra cards =>
             (Returns {| status_code := status; booking_cards := cards |}, S n)
         end.
Proof.
  destruct left; cbn [send]; unfold transient;
    destruct (answers n) as [msg|status ra cards]; try reflexivity;
    change (with_total (retry_strategy retries) ?k) with (retry_strategy k);
    destruct (is_retry _ "POST" status ra); reflexivity.
Qed.

Lemma send_attempts (left n : nat) :
  n < snd (send (retry_strategy retries) answers n left) <= n + left + 1.
Proof.
  revert n. induction left as [|k IH]; intros n; rewrite send_unfold.
  - destruct (transient 0 (answers n)); [simpl; lia|].
    destruct (answers n); simpl; lia.
  - destruct (transient (S k) (answers n)).
    + specialize (IH (S n)). lia.
    + destruct (answers n); simpl; lia.
Qed.



End Send.




(** * Further properties of the code *)

(** ** Tokens *)

Lemma chars_str (l : list ascii) : chars (str l) = l.
Proof. apply list_ascii_of_string_of_list_ascii. Qed.

Lemma str_chars (s : string) : str (chars s) = s.
Proof. apply string_of_list_ascii_of_string. Qed.

Lemma flush_tokens (cur : list ascii) :
  forallb (fun c => negb (py_isspace c)) cur = true ->
  Forall is_token (flush cur).
Proof.
  intros H. destruct cur as [|c cur]; [constructor|].
  constructor; [|constructor]. split.
  - intros E. apply (f_equal chars) in E. rewrite chars_str in E.
    simpl in E. destruct (rev cur); discriminate E.
  - rewrite chars_str, forallb_rev. exact H.
Qed.

Lemma split_go_tokens (l cur : list ascii) :
  forallb (fun c => negb (py_isspace c)) cur = true ->
  Forall is_token (split_go cur l).
Proof.
  revert cur. induction l as [|c l IH]; intros cur H; simpl.
  - apply flush_tokens. exact H.
  - destruct (py_isspace c) eqn:Ec.
    + apply Forall_app. split; [apply flush_tokens; exact H | apply IH; reflexivity].
    + apply IH. simpl. rewrite Ec. exact H.
Qed.

Lemma py_split_tokens (s : string) : Forall is_token (py_split s).
Proof. apply split_go_tokens. reflexivity. Qed.

Lemma lstrip_chars_id (l : list ascii) :
  match l with [] => True | c :: _ => py_isspace c = false end ->
  lstrip_chars l = l.
Proof. destruct l as [|c l]; [reflexivity|]. simpl. intros ->. reflexivity. Qed.

Lemma token_strip (s : string) : is_token s -> py_strip s = s.
Proof.
  intros [Hne Hall]. unfold py_strip.
  destruct (chars s) as [|c l] eqn:E.
  { apply (f_equal str) in E. rewrite str_chars in E. contradiction. }
  rewrite (lstrip_chars_id (c :: l)).
  2:{ simpl in Hall. apply andb_true_iff in Hall as [Hc _].
      apply negb_true_iff in Hc. exact Hc. }
  rewrite lstrip_chars_id.
  - rewrite rev_involutive, <- E. apply str_chars.
  - rewrite <- forallb_rev in Hall.
    destruct (rev (c :: l)) as [|x r]; [exact I|].
    simpl in Hall. apply andb_true_iff in Hall as [Hx _].
    apply negb_true_iff in Hx. exact Hx.
Qed.

Lemma token_truthy (s : string) : is_token s -> truthy s = true.
Proof. intros [Hne _]. destruct s; [contradiction | reflexivity]. Qed.

(** ** The roster and its keys *)

Lemma last_elem_of (l : list string) (d : string) : l <> [] -> List.last l d ∈ l.
Proof.
  induction l as [|x l IH]; [contradiction|]. intros _.
  destruct l as [|y l]; [left|].
  right. apply IH. discriminate.
Qed.

Lemma parse_card_inv (b : Block) (keys : list string) (data : Inmate.t) :
  parse_card b = Extracted keys data ->
  keys = [ _normalize_name (Inmate.last_name data) (Inmate.first_name data)
             (Inmate.middle_name data);
           _normalize_name (Inmate.last_name data) (Inmate.first_name data) "" ]
  /\ is_token (Inmate.first_name data)
  /\ is_token (Inmate.last_name data)
  /\ ~ dropped b.
Proof.
  unfold parse_card, dropped. destruct b as [card|msg]; [|discriminate].
  destruct (h5 card) as [header|]; [|discriminate]. cbv zeta.
  rewrite py_split_strip.
  pose proof (py_split_tokens header) as Htok.
  destruct (py_split header) as [|t0 [|t1 ts]] eqn:Es; [discriminate..|].
  cbn [length Nat.ltb Nat.leb].
  intros H. injection H as <- <-. cbn [Inmate.first_name Inmate.last_name Inmate.middle_name].
  split; [reflexivity|]. split; [|split].
  - cbn [hd]. inversion Htok; assumption.
  - rewrite Forall_forall in Htok. apply Htok.
    exact (last_elem_of (t0 :: t1 :: ts) "" ltac:(discriminate)).
  - cbn [length]. lia.
Qed.

Lemma add_card_cases (roster : gmap string Inmate.t) (b : Block) :
  (dropped b /\ add_card roster b = roster)
  \/ (exists k1 k2 data,
        parse_card b = Extracted [k1; k2] data
        /\ add_card roster b = <[k2 := data]> (<[k1 := data]> roster)).
Proof.
  destruct (parse_card b) as [|msg|keys data] eqn:E.
  - left. assert (dropped b) as Hd.
    { unfold parse_card in E. unfold dropped. destruct b as [card|m]; [|exact I].
      destruct (h5 card) as [header|]; [|exact I]. cbv zeta in E.
      rewrite py_split_strip in E.
      destruct (length (py_split header) <? 2)%nat eqn:El; [|discriminate].
      apply Nat.ltb_lt. exact El. }
    split; [exact Hd | apply add_card_dropped; exact Hd].
  - left. assert (dropped b) as Hd.
    { unfold parse_card in E. unfold dropped. destruct b as [card|m]; [|exact I].
      destruct (h5 card) as [header|]; [|discriminate]. cbv zeta in E.
      destruct (length (py_split (py_strip header)) <? 2)%nat; discriminate. }
    split; [exact Hd | apply add_card_dropped; exact Hd].
  - right. destruct (parse_card_keys b keys data E) as (k1 & k2 & ->).
    exists k1, k2, data. split; [reflexivity|].
    unfold add_card. rewrite E. reflexivity.
Qed.

Lemma keyed_by_name_empty : keyed_by_name ∅.
Proof. intros k v H. rewrite lookup_empty in H. discriminate. Qed.

Lemma keyed_by_name_add_card (roster : gmap string Inmate.t) (b : Block) :
  keyed_by_name roster -> keyed_by_name (add_card roster b).
Proof.
  intros Hk. destruct (add_card_cases roster b) as [[_ ->]|(k1 & k2 & data & Hp & ->)];
    [exact Hk|].
  destruct (parse_card_inv b _ data Hp) as (Hkeys & Hf & Hl & _).
  injection Hkeys as -> ->.
  intros k v H.
  apply lookup_insert_Some in H as [[<- <-]|[_ H]]; [auto|].
  apply lookup_insert_Some in H as [[<- <-]|[_ H]]; [auto|].
  apply Hk. exact H.
Qed.

Lemma keyed_by_name_parse_cards (cards : list Block) : keyed_by_name (parse_cards cards).
Proof.
  unfold parse_cards.
  assert (forall m, keyed_by_name m -> keyed_by_name (fold_left add_card cards m)) as H.
  { induction cards as [|b cards IH]; intros m Hm; [exact Hm|].
    simpl. apply IH. apply keyed_by_name_add_card. exact Hm. }
  apply H. exact keyed_by_name_empty.
Qed.

Lemma keyed_by_name_page (w : World) (retries page_idx n : nat)
    (records : gmap string Inmate.t) :
  _fetch_single_page w retries page_idx = (Returns records, n) ->
  keyed_by_name records.
Proof.
  unfold _fetch_single_page.
  destruct (session_post w retries page_idx) as [[response|msg] m]; [|discriminate].
  destruct (bool_decide _).
  - intros [= <- _]. exact keyed_by_name_empty.
  - destruct (booking_cards response) as [|b cards] eqn:E.
    + intros [= <- _]. exact keyed_by_name_empty.
    + intros [= <- _]. apply keyed_by_name_parse_cards.
Qed.

Lemma keyed_by_name_union (m1 m2 : gmap string Inmate.t) :
  keyed_by_name m1 -> keyed_by_name m2 -> keyed_by_name (m1 ∪ m2).
Proof.
  intros H1 H2 k v H. apply lookup_union_Some_raw in H as [H|[_ H]]; auto.
Qed.

Lemma keyed_by_name_collect (w : World) (retries : nat) (st : Collect) (p : nat) :
  keyed_by_name (inmates st) -> keyed_by_name (inmates (collect w retries st p)).
Proof.
  intros H. unfold collect.
  destruct (_fetch_single_page w retries p) as [[records|msg] n] eqn:E; [|exact H].
  destruct (bool_decide (records ≠ ∅)); [|exact H].
  cbn [inmates]. apply keyed_by_name_union; [|exact H].
  apply (keyed_by_name_page w retries p n). exact E.
Qed.

Lemma keyed_by_name_run_batch (w : World) (retries start : nat)
    (acc : gmap string Inmate.t) (log : list Request) :
  keyed_by_name acc -> keyed_by_name (inmates (run_batch w retries start acc log)).
Proof.
  intros H. unfold run_batch.
  generalize (as_completed w (seq start batch_size)). intros pages.
  set (st := {| inmates := acc; tally := _; wire_log := log |}).
  assert (keyed_by_name (inmates st)) as Hst by exact H.
  clearbody st. revert st Hst.
  induction pages as [|p pages IH]; intros st Hst; [exact Hst|].
  simpl. apply IH. apply keyed_by_name_collect. exact Hst.
Qed.

Lemma keyed_by_name_run_batches (w : World) (retries : nat) :
  forall (remaining start : nat) (acc : gmap string Inmate.t) (log : list Request)
         (tallies : list Tally),
    keyed_by_name acc ->
    keyed_by_name (run_batches w retries remaining start acc log tallies).1.1.
Proof.
  induction remaining as [|k IH]; intros start acc log tallies H; [exact H|].
  cbn [run_batches].
  pose proof (keyed_by_name_run_batch w retries start acc log H) as Hb.
  destruct (empty_pages _ =? batch_size)%nat; [exact Hb|].
  apply IH. exact Hb.
Qed.

(** X1. Whatever the pages hold and in whatever order they arrive,
    every key of an acquired roster is the full key or the short key of the
    record it leads to, and that record has a non-empty, whitespace-free
    first name and last name. *)
Theorem acquired_roster_keyed_by_name (w : World) (c c' : Client)
    (roster : gmap string Inmate.t) :
  _current_inmates c = None ->
  _fetch_current_confinements w c = (Returns roster, c') ->
  keyed_by_name roster.
Proof.
  intros Hc. unfold _fetch_current_confinements. rewrite Hc.
  unfold mbind, Exec_bind.
  destruct (_ensure_session_initialized w c) as [[[]|msg] c1]; [|discriminate].
  unfold fetch_all_pages.
  pose proof (keyed_by_name_run_batches w (max_retries c1) max_batches 1 ∅ (sent c1)
                (batches c1) keyed_by_name_empty) as H.
  destruct (run_batches _ _ _ _ _ _ _) as [[all log] tallies].
  intros [= <- _]. exact H.
Qed.

Lemma acquired_roster_keyed_by_name_witness : keyed_by_name sample_roster.
Proof.
  apply (acquired_roster_keyed_by_name sample_world (JailAPIClient 3) sample_client);
    [reflexivity | vm_compute; reflexivity].
Defined.

(** ** Empty pages *)

Lemma add_card_nonempty (roster : gmap string Inmate.t) (b : Block) :
  roster <> ∅ -> add_card roster b <> ∅.
Proof.
  intros H. destruct (add_card_cases roster b) as [[_ ->]|(k1 & k2 & data & _ & ->)];
    [exact H | apply insert_non_empty].
Qed.

Lemma fold_add_card_nonempty (cards : list Block) (roster : gmap string Inmate.t) :
  roster <> ∅ -> fold_left add_card cards roster <> ∅.
Proof.
  revert roster. induction cards as [|b cards IH]; intros roster H; [exact H|].
  simpl. apply IH. apply add_card_nonempty. exact H.
Qed.

Lemma parse_cards_empty_iff (cards : list Block) :
  parse_cards cards = ∅ <-> Forall dropped cards.
Proof.
  unfold parse_cards. split.
  - induction cards as [|b cards IH]; intros H; [constructor|].
    simpl in H.
    destruct (add_card_cases ∅ b) as [[Hd Heq]|(k1 & k2 & data & _ & Heq)];
      rewrite Heq in H.
    + constructor; [exact Hd | apply IH; exact H].
    + exfalso. revert H. apply fold_add_card_nonempty, insert_non_empty.
  - induction 1 as [|b cards Hd _ IH]; [reflexivity|].
    simpl. rewrite add_card_dropped by exact Hd. exact IH.
Qed.

(** X2. A page whose POST returned a response counts as empty in the
    batch tally exactly when the status is not 200 or none of its booking
    cards yields a record (each one lacks a name of two tokens or raises
    while it is read). *)
Theorem page_empty_iff_nothing_extracted (w : World) (retries page_idx n : nat)
    (response : Response) :
  session_post w retries page_idx = (Returns response, n) ->
  page_is_empty w retries page_idx = true
  <-> status_code response <> 200%Z \/ Forall dropped (booking_cards response).
Proof.
  intros Hp. unfold page_is_empty, _fetch_single_page. rewrite Hp.
  destruct (decide (status_code response = 200%Z)) as [E|E].
  - rewrite bool_decide_eq_false_2 by (intros H; apply H; exact E).
    destruct (booking_cards response) as [|b cards] eqn:Ec.
    + cbn. rewrite bool_decide_eq_true_2 by reflexivity. split; auto.
    + cbn [fst]. rewrite bool_decide_eq_true, parse_cards_empty_iff.
      split; [auto | intros [H|H]; [contradiction | exact H]].
  - rewrite bool_decide_eq_true_2 by exact E. cbn.
    rewrite bool_decide_eq_true_2 by reflexivity. split; auto.
Qed.

Lemma page_empty_iff_nothing_extracted_witness :
  page_is_empty sample_world 3 1 = false.
Proof.
  destruct (page_is_empty sample_world 3 1) eqn:E; [|reflexivity].
  apply (page_empty_iff_nothing_extracted sample_world 3 1 1
           {| status_code := 200; booking_cards := sample_page |} eq_refl) in E.
  destruct E as [E|E]; [contradiction E; reflexivity|].
  inversion E as [|? ? Hd _]. simpl in Hd. vm_compute in Hd. lia.
Defined.

(** ** Booking number *)

Lemma app_String (c : ascii) (s t : string) : String c s +:+ t = String c (s +:+ t).
Proof. reflexivity. Qed.

Lemma after_prefix_Some (p s rest : string) :
  after_prefix p s = Some rest -> s = p +:+ rest.
Proof.
  revert s. induction p as [|a p IH]; intros s H.
  - simpl in H. injection H as ->. reflexivity.
  - destruct s as [|b s]; [discriminate|]. simpl in H.
    destruct (Ascii.eqb a b) eqn:E; [|discriminate].
    apply Ascii.eqb_eq in E as ->. rewrite app_String. f_equal. apply IH. exact H.
Qed.

Lemma take_digits_spec (s : string) :
  exists rest, s = take_digits s +:+ rest
               /\ all_digits (take_digits s) = true
               /\ no_digit_ahead rest = true.
Proof.
  induction s as [|c s (rest & Hs & Hd & Hn)].
  - exists "". repeat split.
  - simpl. destruct (is_digit c) eqn:E.
    + exists rest. split; [rewrite app_String; f_equal; exact Hs|]. split; [|exact Hn].
      unfold all_digits in *. simpl. rewrite E. exact Hd.
    + exists (String c s). split; [reflexivity|]. split; [reflexivity|].
      simpl. rewrite E. reflexivity.
Qed.

Lemma search_digits_after_sound (prefix s d : string) :
  search_digits_after prefix s = Some d ->
  d <> "" /\ all_digits d = true
  /\ exists before rest, s = before +:+ prefix +:+ d +:+ rest /\ no_digit_ahead rest = true.
Proof.
  induction s as [|c s IH].
  - simpl. destruct (after_prefix prefix "") as [r|] eqn:E; [|discriminate].
    destruct (take_digits r) as [|x y] eqn:Et; [discriminate|].
    intros [= <-].
    destruct (take_digits_spec r) as (rest & Hr & Hd & Hn). rewrite Et in Hr, Hd.
    split; [discriminate|]. split; [exact Hd|].
    exists "", rest. split; [|exact Hn].
    apply after_prefix_Some in E. rewrite Hr in E. exact E.
  - cbn [search_digits_after].
    destruct (after_prefix prefix (String c s)) as [r|] eqn:E.
    + destruct (take_digits r) as [|x y] eqn:Et.
      * intros H. destruct (IH H) as (Hne & Hd & before & rest & Hs & Hn).
        split; [exact Hne|]. split; [exact Hd|].
        exists (String c before), rest.
        split; [rewrite app_String; f_equal; exact Hs | exact Hn].
      * intros [= <-].
        destruct (take_digits_spec r) as (rest & Hr & Hd & Hn). rewrite Et in Hr, Hd.
        split; [discriminate|]. split; [exact Hd|].
        exists "", rest. split; [|exact Hn].
        apply after_prefix_Some in E. rewrite Hr in E. exact E.
    + intros H. destruct (IH H) as (Hne & Hd & before & rest & Hs & Hn).
      split; [exact Hne|]. split; [exact Hd|].
      exists (String c before), rest.
        split; [rewrite app_String; f_equal; exact Hs | exact Hn].
Qed.

(** X3. A booking number, when a record has one, is a non-empty run
    of decimal digits that stands right after "BookingID=" in one of the
    card's links and is not followed by a further digit; a card none of
    whose links contains "BookingID=" has no booking number. *)
Theorem booking_number_is_the_id_of_a_link (hrefs : list string) :
  (forall d, read_booking_number hrefs = Some d ->
     d <> "" /\ all_digits d = true
     /\ exists href before rest,
         In href hrefs
         /\ href = before +:+ "BookingID=" +:+ d +:+ rest
         /\ no_digit_ahead rest = true)
  /\ ((forall href, In href hrefs -> py_in "BookingID=" href = false) ->
      read_booking_number hrefs = None).
Proof.
  unfold read_booking_number. split.
  - intros d. destruct (List.find (py_in "BookingID=") hrefs) as [href|] eqn:E; [|discriminate].
    intros H. apply find_some in E as [Hin _].
    destruct (search_digits_after_sound _ _ _ H) as (Hne & Hd & before & rest & Hs & Hn).
    split; [exact Hne|]. split; [exact Hd|]. exists href, before, rest. auto.
  - intros Hnone. destruct (List.find (py_in "BookingID=") hrefs) as [href|] eqn:E;
      [|reflexivity].
    apply find_some in E as [Hin Hp]. rewrite (Hnone href Hin) in Hp. discriminate.
Qed.

Lemma booking_number_is_the_id_of_a_link_witness :
  read_booking_number (anchors (named_card "Avery Arron Adams")) = Some "4711"
  /\ all_digits "4711" = true.
Proof.
  split; [reflexivity|].
  exact (proj1 (proj2 (proj1 (booking_number_is_the_id_of_a_link
                                (anchors (named_card "Avery Arron Adams")))
                         "4711" eq_refl))).
Defined.

(** ** Detail rows *)

Lemma read_row_ignored (d : Details) (row : DetailRow) :
  ignored_row row -> read_row d row = d.
Proof.
  unfold ignored_row, read_row.
  destruct (detail_label row) as [l|]; [|reflexivity].
  destruct (detail_value row) as [v|]; [|reflexivity].
  cbv zeta. intros (-> & -> & -> & ->). reflexivity.
Qed.

Lemma read_row_booking_date (d : Details) (row : DetailRow) :
  d_booking_date (read_row d row)
  = match booked_value row with Some v => Some v | None => d_booking_date d end.
Proof.
  unfold read_row, booked_value.
  destruct (detail_label row) as [l|]; [|reflexivity].
  destruct (detail_value row) as [v|]; [|reflexivity].
  cbv zeta. destruct (py_in "Booked:" (py_strip l)); [reflexivity|].
  destruct (py_in "Arrest Date/Time:" (py_strip l)); [reflexivity|].
  destruct (py_in "Arresting Agency:" (py_strip l)); [reflexivity|].
  destruct (py_in "Bond Total:" (py_strip l)); reflexivity.
Qed.

(** X4. The booking date of a record is the stripped value of the last
    detail row that has both spans and a label containing "Booked:", and
    None when there is no such row; a row with a span missing or with an
    unknown label changes no field of the record. *)
Theorem detail_rows_last_booked_wins :
  (forall rows : list DetailRow,
      d_booking_date (read_rows rows) = last (omap booked_value rows))
  /\ (forall (row : DetailRow) (before after : list DetailRow),
         ignored_row row ->
         read_rows (before ++ row :: after) = read_rows (before ++ after)).
Proof.
  split.
  - intros rows. unfold read_rows.
    assert (forall d : Details,
               d_booking_date (fold_left read_row rows d)
               = match last (omap booked_value rows) with
                 | Some v => Some v
                 | None => d_booking_date d
                 end) as H.
    { induction rows as [|row rows IH]; intros d; [reflexivity|].
      cbn [fold_left omap list_omap]. rewrite IH, read_row_booking_date.
      destruct (booked_value row) as [v|]; [|reflexivity].
      rewrite last_cons. destruct (last (omap booked_value rows)); reflexivity. }
    rewrite H. destruct (last _); reflexivity.
  - intros row before after Hi. unfold read_rows.
    rewrite !fold_left_app. simpl. rewrite read_row_ignored by exact Hi. reflexivity.
Qed.

Lemma detail_rows_last_booked_wins_witness :
  read_rows ([ {| detail_label := Some "Booked:"; detail_value := Some "10/27/2025" |} ]
             ++ {| detail_label := Some "Height:"; detail_value := Some "6 ft" |}
             :: [ {| detail_label := Some "Bond Total:"; detail_value := None |} ])
  = read_rows ([ {| detail_label := Some "Booked:"; detail_value := Some "10/27/2025" |} ]
               ++ [ {| detail_label := Some "Bond Total:"; detail_value := None |} ]).
Proof.
  apply (proj2 detail_rows_last_booked_wins). vm_compute. auto.
Defined.

(** ** Session and acquisition *)

Lemma ensure_session_returns_inv (w : World) (c c1 : Client) :
  _ensure_session_initialized w c = (Returns (), c1) ->
  _session_initialized c1 = true
  /\ forall w' : World, _ensure_session_initialized w' c1 = (Returns (), c1).
Proof.
  unfold _ensure_session_initialized.
  destruct (_session_initialized c) eqn:E.
  - intros [= <-]. split; [exact E|]. intros w'. rewrite E. reflexivity.
  - destruct (handshake w _); [discriminate|]. intros [= <-].
    split; reflexivity.
Qed.

Lemma ensure_session_raises_inv (w : World) (c c1 : Client) (msg : string) :
  _ensure_session_initialized w c = (Raises msg, c1) ->
  _session_initialized c1 = false
  /\ sent c1 = sent c ++ [GetMainPage]
  /\ _current_inmates c1 = _current_inmates c
  /\ batches c1 = batches c
  /\ max_retries c1 = max_retries c.
Proof.
  unfold _ensure_session_initialized.
  destruct (_session_initialized c) eqn:E; [discriminate|].
  destruct (handshake w _); [|discriminate]. intros [= <- <-]. auto.
Qed.

(** X5. Once the handshake has succeeded the client is marked
    initialized and no later call sends anything, whatever the network
    does; a handshake that raises sends its one GET, leaves the client
    uninitialized and the cache untouched. *)
Theorem session_initialized_once (w : World) (c c1 : Client) :
  (_ensure_session_initialized w c = (Returns (), c1) ->
   _session_initialized c1 = true
   /\ forall w' : World, _ensure_session_initialized w' c1 = (Returns (), c1))
  /\ (forall msg, _ensure_session_initialized w c = (Raises msg, c1) ->
      _session_initialized c1 = false
      /\ sent c1 = sent c ++ [GetMainPage]
      /\ _current_inmates c1 = _current_inmates c
      /\ batches c1 = batches c).
Proof.
  split.
  - apply ensure_session_returns_inv.
  - intros msg H. destruct (ensure_session_raises_inv w c c1 msg H) as (?&?&?&?&?). auto.
Qed.

Lemma session_initialized_once_witness :
  _session_initialized (snd (_ensure_session_initialized sample_world (JailAPIClient 3))) = true
  /\ sent (snd (_ensure_session_initialized offline_world (JailAPIClient 3))) = [GetMainPage].
Proof.
  split.
  - exact (proj1 (proj1 (session_initialized_once sample_world (JailAPIClient 3) _) eq_refl)).
  - exact (proj1 (proj2 (proj2 (session_initialized_once offline_world (JailAPIClient 3) _)
                           "connection refused" eq_refl))).
Defined.

Lemma fetch_raises_inv (w : World) (c c1 : Client) (msg : string) :
  _fetch_current_confinements w c = (Raises msg, c1) ->
  _current_inmates c = None
  /\ _session_initialized c = false
  /\ _ensure_session_initialized w c = (Raises msg, c1).
Proof.
  unfold _fetch_current_confinements.
  destruct (_current_inmates c) as [cached|] eqn:Ec; [discriminate|].
  unfold mbind, Exec_bind.
  destruct (_ensure_session_initialized w c) as [[[]|m] c2] eqn:E.
  - unfold fetch_all_pages. destruct (run_batches _ _ _ _ _ _ _) as [[? ?] ?]. discriminate.
  - intros [= <- <-]. split; [reflexivity|]. split; [|reflexivity].
    unfold _ensure_session_initialized in E.
    destruct (_session_initialized c); [discriminate | reflexivity].
Qed.

(** X6. The acquisition raises only when the handshake raises: it has
    then sent that one GET and no page request, logged no batch, and left
    the cache empty and the session uninitialized, so the next call starts
    over with a new handshake. *)
Theorem failed_acquisition_only_handshake (w : World) (c c1 : Client) (msg : string) :
  _fetch_current_confinements w c = (Raises msg, c1) ->
  handshake w (length (filter (fun r => r = GetMainPage) (sent c))) = Some msg
  /\ sent c1 = sent c ++ [GetMainPage]
  /\ batches c1 = batches c
  /\ _current_inmates c1 = None
  /\ _session_initialized c1 = false.
Proof.
  intros H. destruct (fetch_raises_inv w c c1 msg H) as (Hc & Hs & He).
  destruct (ensure_session_raises_inv w c c1 msg He) as (Hi & Hsent & Hcache & Hb & _).
  split.
  - unfold _ensure_session_initialized in He. rewrite Hs in He.
    destruct (handshake w _) as [m|]; [|discriminate]. injection He as -> _. reflexivity.
  - rewrite Hcache, Hc. auto.
Qed.

Lemma failed_acquisition_only_handshake_witness :
  sent (snd (_fetch_current_confinements offline_world (JailAPIClient 3))) = [GetMainPage].
Proof.
  exact (proj1 (proj2 (failed_acquisition_only_handshake offline_world (JailAPIClient 3) _
                         "connection refused" eq_refl))).
Defined.

(** ** Custody matcher *)

Lemma check_custody_inv (w : World) (d : Defendant.t) (c c' : Client) (v : CustodyResult.t) :
  check_custody w d c = (Returns v, c') ->
  (exists roster,
      _fetch_current_confinements w c = (Returns roster, c')
      /\ v = match first_hit roster
                     [ _normalize_name (Defendant.last_name d) (Defendant.first_name d)
                         (default "" (Defendant.middle_name d));
                       _normalize_name (Defendant.last_name d) (Defendant.first_name d) "" ] with
             | Some inmate => matched d inmate
             | None => not_found d None
             end)
  \/ (exists msg,
         _fetch_current_confinements w c = (Raises msg, c')
         /\ v = not_found d (Some ("Error: " +:+ msg))).
Proof.
  rewrite check_custody_unfold.
  destruct (_fetch_current_confinements w c) as [[roster|msg] c1].
  - intros [= <- <-]. left. eauto.
  - intros [= <- <-]. right. eauto.
Qed.

Lemma check_custody_on_cached_roster_aux (w : World) (d : Defendant.t) (c : Client)
    (roster : gmap string Inmate.t) :
  _current_inmates c = Some roster ->
  exists v,
    check_custody w d c = (Returns v, c)
    /\ CustodyResult.error_message v = None.
Proof.
  intros Hc. eexists. split.
  - rewrite check_custody_unfold, (fetch_cached w c roster Hc). reflexivity.
  - destruct (first_hit roster _); reflexivity.
Qed.

(** X7. With a roster in the cache, [check_custody] gives the same
    verdict whatever the network does, that verdict is never an error, and
    the client is left exactly as it was: nothing is sent and the cache is
    not touched. *)
Theorem check_custody_on_cached_roster (w : World) (d : Defendant.t) (c : Client)
    (roster : gmap string Inmate.t) :
  _current_inmates c = Some roster ->
  exists v,
    check_custody w d c = (Returns v, c)
    /\ CustodyResult.error_message v = None
    /\ forall w' : World, check_custody w' d c = (Returns v, c).
Proof.
  intros Hc. eexists. split; [|split].
  - rewrite check_custody_unfold, (fetch_cached w c roster Hc). reflexivity.
  - destruct (first_hit roster _); reflexivity.
  - intros w'. rewrite check_custody_unfold, (fetch_cached w' c roster Hc). reflexivity.
Qed.

Lemma check_custody_on_cached_roster_witness :
  exists v,
    check_custody offline_world avery_adams sample_client = (Returns v, sample_client)
    /\ CustodyResult.error_message v = None.
Proof.
  destruct (check_custody_on_cached_roster offline_world avery_adams sample_client
              sample_roster ltac:(vm_compute; reflexivity)) as (v & Hv & He & _).
  exists v. split; assumption.
Defined.

Lemma normalize_name_congr (l1 f1 m1 l2 f2 m2 : string) :
  l1 <> "" -> f1 <> "" -> l2 <> "" -> f2 <> "" ->
  same_name l1 l2 -> same_name f1 f2 -> same_name m1 m2 ->
  (m1 = "" <-> m2 = "") ->
  _normalize_name l1 f1 m1 = _normalize_name l2 f2 m2.
Proof.
  unfold same_name. intros Hl1 Hf1 Hl2 Hf2 El Ef Em Hm.
  rewrite !normalize_name_unfold by assumption.
  rewrite El, Ef, Em.
  destruct m1, m2; simpl; try reflexivity.
  - destruct Hm as [Hm _]. discriminate Hm; reflexivity.
  - destruct Hm as [_ Hm]. discriminate Hm; reflexivity.
Qed.

(** X8. Against the same cached roster, two subjects whose last, first
    and middle names differ in letter case or surrounding whitespace only
    (and whose middle names are both empty or both not) get the same
    finding: the same custody flag and the same booking detail. *)
Theorem verdict_ignores_case_and_padding (w : World) (c : Client)
    (roster : gmap string Inmate.t) (d1 d2 : Defendant.t) :
  _current_inmates c = Some roster ->
  Defendant.last_name d1 <> "" -> Defendant.first_name d1 <> "" ->
  Defendant.last_name d2 <> "" -> Defendant.first_name d2 <> "" ->
  same_name (Defendant.last_name d1) (Defendant.last_name d2) ->
  same_name (Defendant.first_name d1) (Defendant.first_name d2) ->
  same_name (Defendant.middle d1) (Defendant.middle d2) ->
  (Defendant.middle d1 = "" <-> Defendant.middle d2 = "") ->
  exists v1 v2,
    check_custody w d1 c = (Returns v1, c)
    /\ check_custody w d2 c = (Returns v2, c)
    /\ same_finding v1 v2.
Proof.
  intros Hc Hl1 Hf1 Hl2 Hf2 El Ef Em Hm.
  rewrite !check_custody_unfold, (fetch_cached w c roster Hc).
  eexists _, _. split; [reflexivity|]. split; [reflexivity|].
  change (default "" (Defendant.middle_name d1)) with (Defendant.middle d1).
  change (default "" (Defendant.middle_name d2)) with (Defendant.middle d2).
  rewrite (normalize_name_congr _ _ (Defendant.middle d1) _ _ (Defendant.middle d2)
             Hl1 Hf1 Hl2 Hf2 El Ef Em Hm).
  assert (_normalize_name (Defendant.last_name d1) (Defendant.first_name d1) ""
          = _normalize_name (Defendant.last_name d2) (Defendant.first_name d2) "") as ->.
  { apply normalize_name_congr; try assumption; [reflexivity | tauto]. }
  destruct (first_hit roster _); repeat split.
Qed.

Lemma verdict_ignores_case_and_padding_witness :
  exists v1 v2,
    check_custody sample_world avery_adams sample_client = (Returns v1, sample_client)
    /\ check_custody sample_world
         {| Defendant.last_name := " Adams"; Defendant.first_name := "avery ";
            Defendant.middle_name := Some "Arron"; Defendant.matter_number := None;
            Defendant.case_number := None |} sample_client = (Returns v2, sample_client)
    /\ same_finding v1 v2.
Proof.
  apply (verdict_ignores_case_and_padding sample_world sample_client sample_roster);
    try discriminate; try reflexivity.
  split; discriminate.
Defined.

(** X9. A subject whose last and first names are, up to letter case
    and surrounding whitespace, the last and first token of the display
    name of a card in the roster is reported in custody, whatever middle
    name the subject has and whatever tokens stand between the two on the
    card. *)
Theorem first_and_last_name_suffice (w : World) (c : Client)
    (roster : gmap string Inmate.t) (card : Card) (header first_tok last_tok : string)
    (interior : list string) (d : Defendant.t) :
  h5 card = Some header ->
  py_split header = first_tok :: interior ++ [last_tok] ->
  _current_inmates c = Some (add_card roster (Parsed card)) ->
  Defendant.last_name d <> "" -> Defendant.first_name d <> "" ->
  same_name (Defendant.last_name d) last_tok ->
  same_name (Defendant.first_name d) first_tok ->
  exists v,
    check_custody w d c = (Returns v, c)
    /\ CustodyResult.in_custody v = true.
Proof.
  intros Hh Hs Hc Hl Hf El Ef.
  pose proof (py_split_tokens header) as Htok. rewrite Hs in Htok.
  assert (is_token first_tok) as [Hft _] by (inversion Htok; assumption).
  assert (is_token last_tok) as [Hlt _].
  { rewrite Forall_forall in Htok. apply Htok. right.
    apply list_elem_of_In, in_or_app. right. left. reflexivity. }
  rewrite <- py_split_strip in Hs.
  destruct (parse_card_tokens card header first_tok last_tok interior Hh Hs)
    as (data & Hp & _).
  destruct (add_card_extracted roster _ _ _ data Hp) as [_ Hshort].
  rewrite check_custody_unfold, (fetch_cached w c _ Hc).
  eexists. split; [reflexivity|]. cbn [first_hit].
  assert (_normalize_name (Defendant.last_name d) (Defendant.first_name d) ""
          = _normalize_name last_tok first_tok "") as ->.
  { apply normalize_name_congr; try assumption; [reflexivity | tauto]. }
  rewrite Hshort.
  destruct (add_card roster (Parsed card)
              !! _normalize_name (Defendant.last_name d) (Defendant.first_name d)
                   (default "" (Defendant.middle_name d))); reflexivity.
Qed.

Lemma first_and_last_name_suffice_witness :
  exists v,
    check_custody offline_world
      {| Defendant.last_name := "adams"; Defendant.first_name := "AVERY";
         Defendant.middle_name := Some "Q"; Defendant.matter_number := None;
         Defendant.case_number := None |} sample_client = (Returns v, sample_client)
    /\ CustodyResult.in_custody v = true.
Proof.
  apply (first_and_last_name_suffice offline_world sample_client ∅
           (named_card "Avery Arron Adams") "Avery Arron Adams" "Avery" "Adams" ["Arron"]);
    try discriminate; try reflexivity.
Defined.

(** ** The batch loop of [main.py] *)

Lemma check_custody_loop_runs (w : World) (ds : list Defendant.t) :
  forall (acc : list CustodyResult.t) (c c' : Client) (r : list CustodyResult.t),
    check_custody_loop w ds acc c = (Returns r, c') ->
    exists vs, r = acc ++ vs /\ Runs w c ds vs c'.
Proof.
  induction ds as [|d ds IH]; intros acc c c' r H.
  - injection H as <- <-. exists []. split; [symmetry; apply app_nil_r | constructor].
  - cbn [check_custody_loop] in H. unfold mbind, Exec_bind in H.
    destruct (check_custody_returns w d c) as (v & c1 & Hv). rewrite Hv in H.
    destruct (IH _ _ _ _ H) as (vs & -> & Hruns).
    exists (v :: vs). split; [rewrite <- app_assoc; reflexivity|].
    econstructor; eassumption.
Qed.

Lemma check_custody_for_all_runs (w : World) (ds : list Defendant.t) (c c' : Client)
    (vs : list CustodyResult.t) :
  check_custody_for_all w ds c = (Returns vs, c') -> Runs w c ds vs c'.
Proof.
  intros H. destruct (check_custody_loop_runs w ds [] c c' vs H) as (vs' & -> & Hr).
  exact Hr.
Qed.

Lemma runs_about (w : World) (c c' : Client) (ds : list Defendant.t)
    (vs : list CustodyResult.t) :
  Runs w c ds vs c' -> Forall2 about ds vs.
Proof.
  induction 1 as [c|c c1 c' d ds v vs Hv _ IH]; constructor; [|exact IH].
  destruct (check_custody_inv w d c c1 v Hv) as [(roster & _ & ->)|(msg & _ & ->)].
  - destruct (first_hit roster _); repeat split.
  - repeat split.
Qed.

(** X10. The verdicts of a batch come in the order of the subjects:
    the i-th verdict is about the i-th subject. *)
Theorem verdicts_follow_subjects (w : World) (ds : list Defendant.t) (c c' : Client)
    (vs : list CustodyResult.t) :
  check_custody_for_all w ds c = (Returns vs, c') ->
  Forall2 about ds vs.
Proof.
  intros H. apply check_custody_for_all_runs in H.
  exact (runs_about w c c' ds vs H).
Qed.

Lemma verdicts_follow_subjects_witness :
  Forall2 about [avery_adams; avery_adams]
    [ not_found avery_adams (Some "Error: connection refused");
      not_found avery_adams (Some "Error: connection refused") ].
Proof.
  apply (verdicts_follow_subjects offline_world _ (JailAPIClient 3)
           (snd (check_custody_for_all offline_world [avery_adams; avery_adams]
                   (JailAPIClient 3)))).
  reflexivity.
Defined.

Lemma check_custody_step (w : World) (d : Defendant.t) (c c1 : Client) (v : CustodyResult.t) :
  check_custody w d c = (Returns v, c1) ->
  (is_error v = true /\ CustodyResult.in_custody v = false
   /\ exists msg, _fetch_current_confinements w c = (Raises msg, c1))
  \/ (is_error v = false
      /\ exists roster, _fetch_current_confinements w c = (Returns roster, c1)
                        /\ _current_inmates c1 = Some roster).
Proof.
  intros H. destruct (check_custody_inv w d c c1 v H) as [(roster & Hf & ->)|(msg & Hf & ->)].
  - right. split; [destruct (first_hit roster _); reflexivity|].
    exists roster. split; [exact Hf | exact (fetch_populates w c c1 roster Hf)].
  - left. split; [reflexivity|]. split; [reflexivity|]. eauto.
Qed.

Lemma runs_cached (w : World) (c c' : Client) (ds : list Defendant.t)
    (vs : list CustodyResult.t) :
  Runs w c ds vs c' ->
  is_Some (_current_inmates c) ->
  c' = c /\ Forall (fun v => is_error v = false) vs.
Proof.
  induction 1 as [c|c c1 c' d ds v vs Hv _ IH]; intros [roster Hc]; [auto|].
  destruct (check_custody_on_cached_roster_aux w d c roster Hc) as (v0 & Hv0 & He).
  rewrite Hv0 in Hv. injection Hv as <- <-.
  destruct (IH (ex_intro _ roster Hc)) as [-> Hall].
  split; [reflexivity|]. constructor; [|exact Hall].
  unfold is_error. rewrite He. reflexivity.
Qed.

(** X11. In a batch the error verdicts come first: there is a number
    k such that exactly the first k verdicts report a failed acquisition,
    none of them in custody; once one subject has been answered from a
    roster, no later subject of the batch gets an error. *)
Theorem errors_come_first (w : World) (ds : list Defendant.t) (c c' : Client)
    (vs : list CustodyResult.t) :
  check_custody_for_all w ds c = (Returns vs, c') ->
  exists k,
    k <= length vs
    /\ Forall (fun v => is_error v = true /\ CustodyResult.in_custody v = false) (take k vs)
    /\ Forall (fun v => is_error v = false) (drop k vs).
Proof.
  intros H. apply check_custody_for_all_runs in H.
  induction H as [c|c c1 c' d ds v vs Hv Hr IH].
  - exists 0. repeat split; [simpl; lia | constructor | constructor].
  - destruct (check_custody_step w d c c1 v Hv) as [(He & Hi & _)|(He & roster & _ & Hc)].
    + destruct IH as (k & Hk & Htake & Hdrop).
      exists (S k). split; [simpl; lia|]. split; [|exact Hdrop].
      cbn [take]. constructor; [split; assumption | exact Htake].
    + exists 0. split; [lia|]. split; [constructor|].
      cbn [drop]. constructor; [exact He|].
      exact (proj2 (runs_cached w c1 c' ds vs Hr (ex_intro _ roster Hc))).
Qed.

Lemma errors_come_first_witness :
  exists k,
    k <= 4
    /\ Forall (fun v => is_error v = true /\ CustodyResult.in_custody v = false)
         (take k (verdicts_of flaky_run))
    /\ Forall (fun v => is_error v = false) (drop k (verdicts_of flaky_run)).
Proof.
  apply (errors_come_first flaky_world [avery_adams; avery_adams; avery_adams; avery_adams]
           (JailAPIClient 3) (snd flaky_run) (verdicts_of flaky_run)).
  vm_compute. reflexivity.
Defined.

(** ** What a batch costs on the network *)

Lemma filter_length_Permutation (f : Request -> bool) (l1 l2 : list Request) :
  l1 ≡ₚ l2 -> length (List.filter f l1) = length (List.filter f l2).
Proof.
  induction 1 as [|x l1 l2 _ IH|x y l|l1 l2 l3 _ IH1 _ IH2]; simpl.
  - reflexivity.
  - destruct (f x); simpl; congruence.
  - destruct (f x), (f y); reflexivity.
  - congruence.
Qed.

Lemma fetch_single_page_attempts (w : World) (retries page_idx : nat) :
  snd (_fetch_single_page w retries page_idx) <= retries + 1.
Proof.
  unfold _fetch_single_page.
  pose proof (send_attempts retries (wire w page_idx) retries 0) as H.
  change (send (retry_strategy retries) (wire w page_idx) 0 retries)
    with (session_post w retries page_idx) in H.
  destruct (session_post w retries page_idx) as [[response|msg] n]; cbn [snd] in *.
  - destruct (bool_decide _); [cbn; lia|].
    destruct (booking_cards response); cbn; lia.
  - lia.
Qed.

Lemma posts_of_a_page (w : World) (retries p : nat) :
  length (List.filter (fun r => bool_decide (r = GetMainPage)) (posts w retries p)) = 0
  /\ length (List.filter (fun r => bool_decide (r <> GetMainPage)) (posts w retries p))
     = snd (_fetch_single_page w retries p).
Proof.
  unfold posts. induction (snd (_fetch_single_page w retries p)) as [|n [IHa IHb]];
    [split; reflexivity|].
  cbn [replicate List.filter].
  rewrite bool_decide_eq_false_2 by discriminate.
  rewrite bool_decide_eq_true_2 by discriminate.
  cbn [length]. rewrite IHa, IHb. split; reflexivity.
Qed.

Lemma posts_count (w : World) (retries : nat) (pages : list nat) :
  length (List.filter (fun r => bool_decide (r = GetMainPage))
            (flat_map (posts w retries) pages)) = 0
  /\ length (List.filter (fun r => bool_decide (r <> GetMainPage))
               (flat_map (posts w retries) pages))
     <= length pages * (retries + 1).
Proof.
  induction pages as [|p pages [IH1 IH2]]; [split; reflexivity|].
  cbn [flat_map length]. rewrite !List.filter_app, !length_app, IH1.
  destruct (posts_of_a_page w retries p) as [-> ->].
  pose proof (fetch_single_page_attempts w retries p) as Hp.
  split; [reflexivity|]. cbn [Nat.mul]. lia.
Qed.

Lemma successful_acquisition_cost (w : World) (c c1 : Client)
    (roster : gmap string Inmate.t) :
  _current_inmates c = None ->
  _session_initialized c = false ->
  _fetch_current_confinements w c = (Returns roster, c1) ->
  handshakes c1 = handshakes c + 1
  /\ page_posts c1 <= page_posts c + max_batches * batch_size * (max_retries c + 1).
Proof.
  intros Hc Hs. unfold _fetch_current_confinements. rewrite Hc.
  unfold mbind, Exec_bind, _ensure_session_initialized. rewrite Hs.
  destruct (handshake w _); [discriminate|].
  unfold fetch_all_pages. cbn [max_retries sent batches _session_initialized].
  destruct (run_batches_spec w (max_retries c) max_batches 0 ∅ (sent c ++ [GetMainPage])
              (batches c) ltac:(unfold max_batches; lia))
    as (n & all & log & Hrun & Hn & Hlog & _).
  change (1 + 0 * batch_size) with 1 in Hrun, Hlog. rewrite Hrun.
  intros [= _ <-]. unfold handshakes, page_posts. cbn [sent].
  rewrite !(filter_length_Permutation _ _ _ Hlog), !List.filter_app, !length_app.
  destruct (posts_count w (max_retries c) (seq 1 (n * batch_size))) as [-> Hle].
  rewrite length_seq in Hle.
  cbn [List.filter]. rewrite bool_decide_eq_true_2 by reflexivity.
  rewrite bool_decide_eq_false_2 by (intros H; apply H; reflexivity).
  cbn [length]. split; [lia|]. nia.
Qed.

Lemma runs_cost (w : World) (c c' : Client) (ds : list Defendant.t)
    (vs : list CustodyResult.t) :
  Runs w c ds vs c' ->
  _current_inmates c = None ->
  _session_initialized c = false ->
  handshakes c'
  = handshakes c + length (List.filter is_error vs)
    + (if (length (List.filter is_error vs) <? length vs)%nat then 1 else 0)
  /\ page_posts c' <= page_posts c + max_batches * batch_size * (max_retries c + 1)
  /\ (length (List.filter is_error vs) = length vs -> page_posts c' = page_posts c).
Proof.
  induction 1 as [c|c c1 c' d ds v vs Hv Hr IH]; intros Hc Hs.
  - cbn. repeat split; lia.
  - destruct (check_custody_step w d c c1 v Hv) as [(He & _ & msg & Hf)|(He & roster & Hf & Hc1)].
    + destruct (fetch_raises_inv w c c1 msg Hf) as (_ & _ & Hens).
      destruct (ensure_session_raises_inv w c c1 msg Hens) as (Hs1 & Hsent & Hcache & _ & Hmr).
      rewrite Hc in Hcache.
      destruct (IH Hcache Hs1) as (Hh & Hp & Hall).
      assert (handshakes c1 = handshakes c + 1 /\ page_posts c1 = page_posts c) as [Hh1 Hp1].
      { unfold handshakes, page_posts. rewrite Hsent, !List.filter_app, !length_app.
        cbn [List.filter]. rewrite bool_decide_eq_true_2 by reflexivity.
        rewrite bool_decide_eq_false_2 by (intros H0; apply H0; reflexivity).
        cbn [length]. split; lia. }
      cbn [List.filter length]. rewrite He. cbn [length].
      rewrite Hh, Hh1, Hmr in *. rewrite Hp1 in Hp, Hall.
      change (S ?a <? S ?b)%nat with (a <? b)%nat.
      split; [lia|]. split; [exact Hp|]. intros E. apply Hall. lia.
    + destruct (runs_cached w c1 c' ds vs Hr (ex_intro _ roster Hc1)) as [-> Hall].
      destruct (successful_acquisition_cost w c c1 roster Hc Hs Hf) as [Hh Hp].
      assert (List.filter is_error vs = []) as Hnone.
      { clear -Hall. induction Hall as [|x l Hx _ IH]; [reflexivity|].
        cbn. rewrite Hx. exact IH. }
      cbn [List.filter length]. rewrite He, Hnone. cbn [length].
      split; [cbn; lia|]. split; [exact Hp|]. intros E. discriminate E.
Qed.

(** X12. A batch run from a new client sends one handshake GET for
    every error verdict plus one for the acquisition that succeeds, if any;
    it posts, over the whole batch and counting retries, at most
    3 * 20 * (max_retries + 1) page requests, and none at all when every
    verdict is an error. *)
Theorem batch_network_cost (w : World) (retries : nat) (ds : list Defendant.t)
    (c' : Client) (vs : list CustodyResult.t) :
  check_custody_for_all w ds (JailAPIClient retries) = (Returns vs, c') ->
  handshakes c'
  = length (List.filter is_error vs)
    + (if (length (List.filter is_error vs) <? length vs)%nat then 1 else 0)
  /\ page_posts c' <= max_batches * batch_size * (retries + 1)
  /\ (length (List.filter is_error vs) = length vs -> page_posts c' = 0).
Proof.
  intros H. apply check_custody_for_all_runs in H.
  exact (runs_cost w (JailAPIClient retries) c' ds vs H eq_refl eq_refl).
Qed.

Lemma batch_network_cost_witness :
  handshakes (snd flaky_run) = 3 /\ page_posts (snd flaky_run) <= 240.
Proof.
  destruct (batch_network_cost flaky_world 3
              [avery_adams; avery_adams; avery_adams; avery_adams]
              (snd flaky_run) (verdicts_of flaky_run) ltac:(vm_compute; reflexivity))
    as (Hh & Hp & _).
  split; [rewrite Hh; reflexivity | exact Hp].
Defined.

(** ** Validation of names *)

Lemma lstrip_chars_head (l : list ascii) :
  match lstrip_chars l with [] => True | c :: _ => py_isspace c = false end.
Proof.
  induction l as [|c l IH]; [exact I|]. simpl.
  destruct (py_isspace c) eqn:E; [exact IH | exact E].
Qed.

Lemma lstrip_chars_idem (l : list ascii) : lstrip_chars (lstrip_chars l) = lstrip_chars l.
Proof. apply lstrip_chars_id, lstrip_chars_head. Qed.

Lemma chars_strip_ends (s : string) :
  lstrip_chars (chars (py_strip s)) = chars (py_strip s)
  /\ lstrip_chars (rev (chars (py_strip s))) = rev (chars (py_strip s)).
Proof.
  unfold py_strip. rewrite chars_str.
  set (m := lstrip_chars (chars s)).
  destruct (lstrip_chars_split (rev m)) as (ws & Hm & Hws).
  set (k := lstrip_chars (rev m)) in *.
  split.
  - apply lstrip_chars_id.
    apply (f_equal (@rev ascii)) in Hm. rewrite rev_involutive, rev_app_distr in Hm.
    pose proof (lstrip_chars_head (chars s)) as Hhead. fold m in Hhead.
    rewrite Hm in Hhead.
    destruct (rev k) as [|c r]; [exact I | exact Hhead].
  - rewrite rev_involutive. apply lstrip_chars_idem.
Qed.

Lemma py_strip_idem (s : string) : py_strip (py_strip s) = py_strip s.
Proof.
  destruct (chars_strip_ends s) as [H1 H2].
  unfold py_strip at 1. rewrite H1, H2, rev_involutive. apply str_chars.
Qed.

Lemma truthy_false (s : string) : truthy s = false -> s = "".
Proof. destruct s; [reflexivity | discriminate]. Qed.

Lemma validate_name_spec (v : string) :
  match validate_name_not_empty v with
  | Returns name => name = py_strip v /\ name <> ""
  | Raises _ => py_strip v = ""
  end.
Proof.
  unfold validate_name_not_empty.
  destruct (truthy v) eqn:Ev; simpl.
  - destruct (truthy (py_strip v)) eqn:Es; simpl.
    + split; [reflexivity|]. intros E. rewrite E in Es. discriminate.
    + apply truthy_false. exact Es.
  - apply truthy_false in Ev. subst v. reflexivity.
Qed.

(** X13. A [Defendant] is built exactly when neither name is blank;
    its last and first names are then the given ones without surrounding
    whitespace, they are not empty, and validating them again returns them
    unchanged; when a name is empty or all whitespace the constructor
    raises. *)
Theorem defendant_names_validated (last first : string)
    (middle matter case charges incident status : option string) :
  (py_strip last <> "" -> py_strip first <> "" ->
   exists d,
     new_Defendant last first middle matter case charges incident status = Returns d
     /\ Defendant.last_name (Docket.defendant d) = py_strip last
     /\ Defendant.first_name (Docket.defendant d) = py_strip first
     /\ Defendant.last_name (Docket.defendant d) <> ""
     /\ Defendant.first_name (Docket.defendant d) <> ""
     /\ new_Defendant (Defendant.last_name (Docket.defendant d))
          (Defendant.first_name (Docket.defendant d))
          middle matter case charges incident status = Returns d)
  /\ (py_strip last = "" \/ py_strip first = "" ->
      exists msg,
        new_Defendant last first middle matter case charges incident status = Raises msg).
Proof.
  unfold new_Defendant.
  pose proof (validate_name_spec last) as Hl. pose proof (validate_name_spec first) as Hf.
  pose proof (validate_name_spec (py_strip last)) as Hl2.
  pose proof (validate_name_spec (py_strip first)) as Hf2.
  rewrite py_strip_idem in Hl2, Hf2.
  split.
  - intros Hnl Hnf.
    destruct (validate_name_not_empty last) as [l|]; [|contradiction].
    destruct (validate_name_not_empty first) as [f|]; [|contradiction].
    destruct Hl as [-> _]. destruct Hf as [-> _].
    eexists. split; [reflexivity|]. cbn.
    destruct (validate_name_not_empty (py_strip last)) as [l2|]; [|contradiction].
    destruct (validate_name_not_empty (py_strip first)) as [f2|]; [|contradiction].
    destruct Hl2 as [-> _]. destruct Hf2 as [-> _]. auto.
  - intros [E|E].
    + destruct (validate_name_not_empty last) as [l|msg]; [|eauto].
      destruct Hl as [-> Hne]. contradiction.
    + destruct (validate_name_not_empty first) as [f|msg].
      * destruct Hf as [-> Hne]. contradiction.
      * destruct (validate_name_not_empty last); eauto.
Qed.

Lemma defendant_names_validated_witness :
  exists d,
    new_Defendant " Smith " "John" None None None None None None = Returns d
    /\ Defendant.last_name (Docket.defendant d) = "Smith".
Proof.
  destruct (proj1 (defendant_names_validated " Smith " "John" None None None None None None))
    as (d & Hd & Hl & _); [discriminate | discriminate |].
  exists d. split; [exact Hd | exact Hl].
Defined.

(** ** Status summary and report counts *)

(** X14. The status line of a verdict of [check_custody] follows the
    outcome of the check: "ERROR: Error: " and the text of the exception
    when the acquisition raised; "IN CUSTODY - Booked: " and the booking
    date when a record was found and it has a non-empty booking date;
    "IN CUSTODY" when it was found without one; "NOT IN CUSTODY" when none
    was found. *)
Theorem status_summary_follows_outcome (w : World) (d : Defendant.t) (c c' : Client)
    (v : CustodyResult.t) :
  check_custody w d c = (Returns v, c') ->
  (forall msg c1, _fetch_current_confinements w c = (Raises msg, c1) ->
     status_summary v = "ERROR: Error: " +:+ msg)
  /\ (forall roster c1, _fetch_current_confinements w c = (Returns roster, c1) ->
      match CustodyResult.in_custody v, CustodyResult.booking_date v with
      | true, Some date =>
          if truthy date then status_summary v = "IN CUSTODY - Booked: " +:+ date
          else status_summary v = "IN CUSTODY"
      | true, None => status_summary v = "IN CUSTODY"
      | false, _ => status_summary v = "NOT IN CUSTODY"
      end).
Proof.
  intros H.
  destruct (check_custody_inv w d c c' v H) as [(roster & Hf & ->)|(msg & Hf & ->)];
    rewrite Hf; split; try discriminate.
  - intros r c1 _. destruct (first_hit roster _) as [inmate|]; [|reflexivity].
    unfold status_summary. cbn.
    destruct (Inmate.booking_date inmate) as [date|]; [|reflexivity].
    cbn. destruct (truthy date); reflexivity.
  - intros m c1 [= <- _]. reflexivity.
Qed.

Lemma status_summary_follows_outcome_witness :
  status_summary (not_found avery_adams (Some "Error: connection refused"))
  = "ERROR: Error: connection refused".
Proof.
  exact (proj1 (status_summary_follows_outcome offline_world avery_adams (JailAPIClient 3)
                  _ _ eq_refl) "connection refused" _ eq_refl).
Defined.

Lemma filter_partition_length (f : CustodyResult.t -> bool) (l : list CustodyResult.t) :
  length (List.filter f l) + length (List.filter (fun v => negb (f v)) l) = length l.
Proof.
  induction l as [|v l IH]; [reflexivity|]. simpl.
  destruct (f v); simpl; lia.
Qed.

Lemma error_not_in_custody_count (vs : list CustodyResult.t) :
  Forall (fun v => is_error v = true -> CustodyResult.in_custody v = false) vs ->
  length (List.filter (fun v => opt_truthy (CustodyResult.error_message v)) vs)
  <= length (List.filter (fun v => negb (CustodyResult.in_custody v)) vs).
Proof.
  induction 1 as [|v vs Hv _ IH]; [reflexivity|]. simpl.
  change (opt_truthy (CustodyResult.error_message v)) with (is_error v).
  destruct (is_error v) eqn:E.
  - rewrite (Hv eq_refl). simpl. lia.
  - destruct (CustodyResult.in_custody v); simpl; lia.
Qed.

Lemma runs_error_not_in_custody (w : World) (c c' : Client) (ds : list Defendant.t)
    (vs : list CustodyResult.t) :
  Runs w c ds vs c' ->
  length vs = length ds
  /\ Forall (fun v => is_error v = true -> CustodyResult.in_custody v = false) vs.
Proof.
  induction 1 as [c|c c1 c' d ds v vs Hv _ [IHl IH]]; [split; [reflexivity|constructor]|].
  split; [simpl; congruence|]. constructor; [|exact IH].
  destruct (check_custody_step w d c c1 v Hv) as [(_ & Hi & _)|(He & _)].
  - intros _. exact Hi.
  - rewrite He. discriminate.
Qed.

(** X15. In every report the verdicts in custody and those not in
    custody add up to all the verdicts, and the in-custody list has
    in_custody_count entries, all of them in custody. In the report of a
    run, moreover, there is one verdict per subject, so the two counts add
    up to total_defendants, and every error is counted among the verdicts
    not in custody. *)
Theorem report_counts_add_up :
  (forall r : CustodyReport.t,
      CustodyReport.in_custody_count r + CustodyReport.not_in_custody_count r
      = length (CustodyReport.custody_results r)
      /\ length (CustodyReport.get_in_custody_list r) = CustodyReport.in_custody_count r
      /\ Forall (fun v => CustodyResult.in_custody v = true)
           (CustodyReport.get_in_custody_list r))
  /\ (forall (w : World) (source : string) (defendants : list Docket.t) (c c' : Client)
             (r : CustodyReport.t),
         build_report w source defendants c = (Returns r, c') ->
         CustodyReport.in_custody_count r + CustodyReport.not_in_custody_count r
         = CustodyReport.total_defendants r
         /\ CustodyReport.error_count r <= CustodyReport.not_in_custody_count r).
Proof.
  split.
  - intros r. split; [apply filter_partition_length|]. split; [reflexivity|].
    unfold CustodyReport.get_in_custody_list. apply List.Forall_forall.
    intros v Hv. apply List.filter_In in Hv as [_ Hv]. exact Hv.
  - intros w source defendants c c' r. unfold build_report, mbind, Exec_bind.
    destruct (check_custody_for_all w (map Docket.defendant defendants) c)
      as [[vs|msg] c1] eqn:E; [|discriminate].
    intros [= <- <-].
    apply check_custody_for_all_runs in E.
    destruct (runs_error_not_in_custody w c c1 _ vs E) as [Hlen Herr].
    unfold CustodyReport.in_custody_count, CustodyReport.not_in_custody_count,
      CustodyReport.error_count, CustodyReport.total_defendants.
    cbn [CustodyReport.custody_results CustodyReport.defendants_checked].
    split.
    + rewrite filter_partition_length, Hlen, length_map. reflexivity.
    + apply error_not_in_custody_count. exact Herr.
Qed.

(** ** Parsing a subject's name *)

Lemma py_in_cons (needle : string) (c : ascii) (s : string) :
  py_in needle (String c s) = String.prefix needle (String c s) || py_in needle s.
Proof. reflexivity. Qed.

Lemma py_in_comma_cons (c : ascii) (s : string) :
  py_in "," (String c s) = Ascii.eqb c "," || py_in "," s.
Proof.
  rewrite py_in_cons. f_equal. cbn [String.prefix].
  destruct (ascii_dec "," c) as [<-|Hne]; [destruct s; reflexivity|].
  symmetry. apply Ascii.eqb_neq. congruence.
Qed.

Lemma split_at_comma_spec (before after : string) :
  py_in "," before = false ->
  py_in "," (before +:+ "," +:+ after) = true
  /\ split_at_comma (before +:+ "," +:+ after) = (before, after).
Proof.
  induction before as [|c before IH]; intros H.
  - change ("" +:+ "," +:+ after) with (String "," after).
    split; [rewrite py_in_comma_cons; reflexivity | reflexivity].
  - rewrite py_in_comma_cons in H. apply orb_false_iff in H as [Hc Hb].
    destruct (IH Hb) as [IH1 IH2]. rewrite app_String. split.
    + rewrite py_in_comma_cons, IH1. apply orb_true_r.
    + cbn [split_at_comma]. rewrite Hc, IH2. reflexivity.
Qed.

(** X16. A name written "Last, First Middle ..." is read as follows:
    the last name is what stands before the first comma, without
    surrounding whitespace; the first name is the first word after the
    comma and the middle name the remaining words joined by single spaces
    (both empty when nothing follows the comma). *)
Theorem parse_name_with_comma (name_str before after : string) :
  py_strip name_str = before +:+ "," +:+ after ->
  py_in "," before = false ->
  parse_defendant_name name_str
  = (hd "" (py_split after), py_join " " (tl (py_split after)), py_strip before).
Proof.
  intros Hs Hb. unfold parse_defendant_name. rewrite Hs.
  destruct (split_at_comma_spec before after Hb) as [-> ->].
  rewrite py_split_strip.
  destruct (py_split after) as [|f [|g more]]; reflexivity.
Qed.

Lemma parse_name_with_comma_witness :
  parse_defendant_name " Washington , George Thomas  Patrick "
  = ("George", "Thomas Patrick", "Washington").
Proof.
  exact (parse_name_with_comma " Washington , George Thomas  Patrick "
           "Washington " " George Thomas  Patrick" eq_refl eq_refl).
Defined.

Lemma parse_name_without_comma (name_str first_tok last_tok : string)
    (interior : list string) :
  py_in "," (py_strip name_str) = false ->
  py_split name_str = first_tok :: interior ++ [last_tok] ->
  parse_defendant_name name_str = (first_tok, py_join " " interior, last_tok).
Proof.
  intros Hc Hs. unfold parse_defendant_name. rewrite Hc, py_split_strip, Hs.
  destruct interior as [|t ts].
  - reflexivity.
  - destruct (name_parts_ends first_tok last_tok (t :: ts)) as (_ & Hlast & _).
    replace (3 <=? length (first_tok :: (t :: ts) ++ [last_tok]))%nat with true.
    2:{ symmetry. apply Nat.leb_le. cbn [length]. rewrite length_app. cbn [length]. lia. }
    rewrite Hlast. cbn [hd tl]. rewrite removelast_last. reflexivity.
Qed.

(** X17. A display name without comma and with at least two words,
    read by [parse_defendant_name] and made a [Defendant], is found in any
    roster to which a card with that display name was added: the verdict is
    in custody and carries the record of that card. *)
Theorem parsed_display_name_is_found (w : World) (c : Client)
    (roster : gmap string Inmate.t) (card : Card) (header first_tok last_tok : string)
    (interior : list string) (d : Docket.t) :
  h5 card = Some header ->
  py_in "," (py_strip header) = false ->
  py_split header = first_tok :: interior ++ [last_tok] ->
  new_Defendant (parse_defendant_name header).2 (parse_defendant_name header).1.1
    (Some (parse_defendant_name header).1.2) None None None None None = Returns d ->
  _current_inmates c = Some (add_card roster (Parsed card)) ->
  exists v keys data,
    check_custody w (Docket.defendant d) c = (Returns v, c)
    /\ parse_card (Parsed card) = Extracted keys data
    /\ v = matched (Docket.defendant d) data.
Proof.
  intros Hh Hc Hs Hd Hcache.
  rewrite (parse_name_without_comma header first_tok last_tok interior Hc Hs) in Hd.
  cbn [fst snd] in Hd.
  pose proof (py_split_tokens header) as Htok. rewrite Hs in Htok.
  assert (is_token first_tok) as Hft by (inversion Htok; assumption).
  assert (is_token last_tok) as Hlt.
  { rewrite Forall_forall in Htok. apply Htok. right.
    apply list_elem_of_In, in_or_app. right. left. reflexivity. }
  unfold new_Defendant, validate_name_not_empty in Hd.
  rewrite (token_strip _ Hft), (token_strip _ Hlt),
    (token_truthy _ Hft), (token_truthy _ Hlt) in Hd.
  cbn in Hd. injection Hd as <-.
  rewrite <- py_split_strip in Hs.
  destruct (parse_card_tokens card header first_tok last_tok interior Hh Hs)
    as (data & Hp & _).
  destruct (add_card_extracted roster _ _ _ data Hp) as [Hfull _].
  exists (matched {| Defendant.last_name := last_tok; Defendant.first_name := first_tok;
                     Defendant.middle_name := Some (py_join " " interior);
                     Defendant.matter_number := None; Defendant.case_number := None |} data).
  eexists _, data. split; [|split; [exact Hp | reflexivity]].
  rewrite check_custody_unfold, (fetch_cached w c _ Hcache).
  cbn [first_hit Docket.defendant Defendant.last_name Defendant.first_name
       Defendant.middle_name default from_option id]. rewrite Hfull. reflexivity.
Qed.

Lemma parsed_display_name_is_found_witness :
  exists v,
    check_custody offline_world
      {| Defendant.last_name := "Adams"; Defendant.first_name := "Avery";
         Defendant.middle_name := Some "Arron"; Defendant.matter_number := None;
         Defendant.case_number := None |} sample_client = (Returns v, sample_client)
    /\ CustodyResult.booking_number v = Some "4711".
Proof.
  assert (_current_inmates sample_client
          = Some (add_card (∅ : gmap string Inmate.t) (Parsed (named_card "Avery Arron Adams"))))
    as Hcache by (vm_compute; reflexivity).
  destruct (parsed_display_name_is_found offline_world sample_client ∅
              (named_card "Avery Arron Adams") "Avery Arron Adams" "Avery" "Adams" ["Arron"]
              _ eq_refl eq_refl eq_refl eq_refl Hcache)
    as (v & keys & data & Hv & Hp & ->).
  eexists. split; [exact Hv|].
  injection Hp as _ <-. reflexivity.
Defined.

(** ** Duplicates among the subjects of a worklist *)

Lemma unique_loop_spec (ds : list Docket.t) :
  forall seen : gset (string * string * option string),
    NoDup (map dedup_key (unique_loop ds seen))
    /\ sublist (unique_loop ds seen) ds
    /\ (forall d, d ∈ ds ->
          dedup_key d ∈ seen \/ dedup_key d ∈ map dedup_key (unique_loop ds seen))
    /\ (forall d, d ∈ unique_loop ds seen ->
          (dedup_key d ∉ seen)
          /\ exists l1 l2, ds = l1 ++ d :: l2 /\ (dedup_key d ∉ map dedup_key l1)).
Proof.
  induction ds as [|x ds IH]; intros seen.
  - cbn. split; [constructor|]. split; [constructor|].
    split; intros d Hd; inversion Hd.
  - cbn [unique_loop]. destruct (decide (dedup_key x ∈ seen)) as [Hin|Hnot].
    + rewrite bool_decide_eq_false_2 by (intros H; apply H; exact Hin).
      destruct (IH seen) as (Hnd & Hsub & Hcov & Hfirst).
      split; [exact Hnd|]. split; [apply sublist_cons; exact Hsub|]. split.
      * intros d Hd. apply elem_of_cons in Hd as [->|Hd]; [left; exact Hin | apply Hcov, Hd].
      * intros d Hd. destruct (Hfirst d Hd) as (Hns & l1 & l2 & -> & Hl1).
        split; [exact Hns|]. exists (x :: l1), l2. split; [reflexivity|].
        cbn [map]. rewrite not_elem_of_cons. split; [|exact Hl1].
        intros E. rewrite E in Hns. contradiction.
    + rewrite bool_decide_eq_true_2 by exact Hnot.
      destruct (IH ({[dedup_key x]} ∪ seen)) as (Hnd & Hsub & Hcov & Hfirst).
      split; [|split; [|split]].
      * cbn [map]. apply NoDup_cons. split; [|exact Hnd].
        intros Hx. apply list_elem_of_fmap in Hx as (d & Hk & Hd).
        destruct (Hfirst d Hd) as (Hns & _). apply Hns. rewrite <- Hk.
        apply elem_of_union_l, elem_of_singleton. reflexivity.
      * apply sublist_skip. exact Hsub.
      * intros d Hd. apply elem_of_cons in Hd as [->|Hd].
        -- right. cbn [map]. left.
        -- destruct (Hcov d Hd) as [H|H].
           ++ apply elem_of_union in H as [H|H]; [|left; exact H].
              apply elem_of_singleton in H. right. cbn [map]. rewrite H. left.
           ++ right. cbn [map]. right. exact H.
      * intros d Hd. apply elem_of_cons in Hd as [->|Hd].
        -- split; [exact Hnot|]. exists [], ds. split; [reflexivity|]. cbn. apply not_elem_of_nil.
        -- destruct (Hfirst d Hd) as (Hns & l1 & l2 & -> & Hl1).
           split; [intros H; apply Hns, elem_of_union_r, H|].
           exists (x :: l1), l2. split; [reflexivity|].
           cbn [map]. rewrite not_elem_of_cons. split; [|exact Hl1].
           intros E. apply Hns. rewrite E.
           apply elem_of_union_l, elem_of_singleton. reflexivity.
Qed.

(** X18. The subjects kept from a worklist have pairwise distinct keys
    (lowercased last name, lowercased first name, case number); they come
    in their original order; every subject of the worklist has its key
    among them; and each subject kept is the first of the worklist with its
    key. *)
Theorem unique_defendants_keeps_first (ds : list Docket.t) :
  NoDup (map dedup_key (unique_defendants ds))
  /\ sublist (unique_defendants ds) ds
  /\ (forall d, d ∈ ds -> dedup_key d ∈ map dedup_key (unique_defendants ds))
  /\ (forall d, d ∈ unique_defendants ds ->
        exists l1 l2, ds = l1 ++ d :: l2 /\ (dedup_key d ∉ map dedup_key l1)).
Proof.
  destruct (unique_loop_spec ds ∅) as (Hnd & Hsub & Hcov & Hfirst).
  split; [exact Hnd|]. split; [exact Hsub|]. split.
  - intros d Hd. destruct (Hcov d Hd) as [H|H]; [|exact H].
    apply elem_of_empty in H. contradiction.
  - intros d Hd. apply (Hfirst d Hd).
Qed.

(** ** Case lines of a worklist *)

Lemma extract_case_returns (line : CaseLine) :
  (exists reason, extract_case line = Returns (FailedExtraction reason))
  \/ (exists d,
        extract_case line = Returns (Subject d)
        /\ Defendant.case_number (Docket.defendant d) = Some (case_no line)
        /\ Defendant.matter_number (Docket.defendant d) = matter_no line
        /\ Defendant.last_name (Docket.defendant d) <> ""
        /\ Defendant.first_name (Docket.defendant d) <> "").
Proof.
  unfold extract_case.
  destruct (defendant_words line) as [|word words]; [left; eauto|].
  destruct (negb (truthy _) || negb (truthy _)); [left; eauto|].
  destruct (parse_defendant_name _) as [[first middle] last].
  destruct (truthy first) eqn:Ef; [|left; eauto].
  destruct (truthy (py_strip first)) eqn:Efs; [|left; eauto].
  destruct (truthy last) eqn:El; [|left; eauto].
  destruct (truthy (py_strip last)) eqn:Els; [|left; eauto].
  cbn [andb negb]. right.
  unfold new_Defendant, validate_name_not_empty. rewrite Ef, Efs, El, Els. cbn.
  eexists. split; [reflexivity|]. cbn.
  repeat split; intros E; [rewrite E in Els | rewrite E in Efs]; discriminate.
Qed.

Lemma extract_cases_returns (lines : list CaseLine) :
  forall acc : list Docket.t,
  exists ds,
    extract_cases lines acc = Returns (acc ++ ds)
    /\ length ds <= length lines
    /\ Forall (fun d =>
                (exists line, line ∈ lines
                   /\ Defendant.case_number (Docket.defendant d) = Some (case_no line)
                   /\ Defendant.matter_number (Docket.defendant d) = matter_no line)
                /\ Defendant.last_name (Docket.defendant d) <> ""
                /\ Defendant.first_name (Docket.defendant d) <> "") ds.
Proof.
  induction lines as [|line lines IH]; intros acc.
  - exists []. rewrite app_nil_r. repeat split; [reflexivity | constructor].
  - cbn [extract_cases].
    destruct (extract_case_returns line) as [(reason & ->)|(d & -> & Hc & Hm & Hl & Hf)].
    + destruct (IH acc) as (ds & -> & Hlen & Hall).
      exists ds. split; [reflexivity|]. split; [simpl; lia|].
      eapply Forall_impl; [exact Hall|].
      intros x ((l & Hin & Hx) & Hrest). split; [|exact Hrest].
      exists l. split; [right; exact Hin | exact Hx].
    + destruct (IH (acc ++ [d])) as (ds & -> & Hlen & Hall).
      exists (d :: ds). split; [rewrite <- app_assoc; reflexivity|]. split; [simpl; lia|].
      constructor.
      * split; [|split; assumption]. exists line. split; [left | split; assumption].
      * eapply Forall_impl; [exact Hall|].
        intros x ((l & Hin & Hx) & Hrest). split; [|exact Hrest].
        exists l. split; [right; exact Hin | exact Hx].
Qed.

(** X19. Reading the case lines of a worklist never raises: a line
    without a usable name is passed over, because the loop accepts a name
    only under the very condition the validator of [Defendant] checks.
    There are no more subjects than lines, no two of them have the same
    key, and each has a non-empty last and first name and the case number
    and matter number of one of the lines. *)
Theorem pdf_lines_never_raise (lines : list CaseLine) :
  exists ds,
    parse_pdf_lines lines = Returns ds
    /\ length ds <= length lines
    /\ NoDup (map dedup_key ds)
    /\ Forall (fun d =>
                (exists line, line ∈ lines
                   /\ Defendant.case_number (Docket.defendant d) = Some (case_no line)
                   /\ Defendant.matter_number (Docket.defendant d) = matter_no line)
                /\ Defendant.last_name (Docket.defendant d) <> ""
                /\ Defendant.first_name (Docket.defendant d) <> "") ds.
Proof.
  unfold parse_pdf_lines.
  destruct (extract_cases_returns lines []) as (ds & -> & Hlen & Hall).
  cbn [app]. eexists. split; [reflexivity|].
  destruct (unique_loop_spec ds ∅) as (Hnd & Hsub & _).
  fold (unique_defendants ds) in Hnd, Hsub.
  split; [|split; [exact Hnd|]].
  - apply sublist_length in Hsub. lia.
  - rewrite Forall_forall in Hall. apply Forall_forall. intros d Hd.
    apply Hall. eapply elem_of_sublist; eassumption.
Qed.

(** ** Rows of a case table *)

Lemma hd_token (l : list string) :
  Forall is_token l -> hd "" l = "" \/ is_token (hd "" l).
Proof. intros H. destruct H; [left; reflexivity | right; assumption]. Qed.

Lemma parse_name_shape (name : string) :
  py_strip (parse_defendant_name name).2 = (parse_defendant_name name).2
  /\ ((parse_defendant_name name).1.1 = "" \/ is_token (parse_defendant_name name).1.1)
  /\ ((parse_defendant_name name).1.1 = "" -> (parse_defendant_name name).1.2 = "").
Proof.
  unfold parse_defendant_name.
  destruct (py_in "," (py_strip name)).
  - destruct (split_at_comma (py_strip name)) as [part0 part1].
    pose proof (py_split_tokens (py_strip part1)) as Htok.
    destruct (py_split (py_strip part1)) as [|f [|g more]]; cbn.
    + split; [apply py_strip_idem|]. split; [left; reflexivity | reflexivity].
    + split; [apply py_strip_idem|]. split; [right; inversion Htok; assumption|].
      reflexivity.
    + split; [apply py_strip_idem|]. inversion Htok as [|? ? [Hne _] _]; subst.
      split; [right; inversion Htok; assumption | intros E; contradiction].
  - pose proof (py_split_tokens (py_strip name)) as Htok.
    destruct (py_split (py_strip name)) as [|a [|b [|x more]]] eqn:Es.
    + cbn. split; [reflexivity|]. split; [left; reflexivity | reflexivity].
    + cbn. inversion Htok; subst.
      split; [apply token_strip; assumption|]. split; [left; reflexivity | reflexivity].
    + cbn. inversion Htok as [|? ? Ha Hrest]; subst. inversion Hrest; subst.
      split; [apply token_strip; assumption|]. split; [right; exact Ha | reflexivity].
    + assert (is_token a) as Ha by (inversion Htok; assumption).
      assert (is_token (List.last (a :: b :: x :: more) "")) as Hl.
      { rewrite Forall_forall in Htok. apply Htok.
        exact (last_elem_of (a :: b :: x :: more) "" ltac:(discriminate)). }
      replace (3 <=? length (a :: b :: x :: more))%nat with true by reflexivity.
      cbn [fst snd hd]. split; [apply token_strip; exact Hl|].
      split; [right; exact Ha|]. intros E. destruct Ha as [Hne _]. contradiction.
Qed.

Lemma parse_csv_row_spec (row : gmap string string) :
  match parse_csv_row row with
  | Returns None => True
  | Returns (Some d) =>
      Defendant.last_name (Docket.defendant d) <> ""
      /\ Defendant.first_name (Docket.defendant d) <> ""
  | Raises _ =>
      exists name, kept_name row = Some name
                   /\ (parse_defendant_name name).2 <> ""
                   /\ (parse_defendant_name name).1.1 = ""
  end.
Proof.
  unfold parse_csv_row. destruct (kept_name row) as [name|]; [|exact I].
  destruct (parse_name_shape name) as (Hls & Hfs & _).
  destruct (parse_defendant_name name) as [[first middle] last] eqn:Ep. cbn [fst snd] in *.
  destruct (truthy last) eqn:El; [|exact I]. cbn [negb].
  assert (last <> "") as Hlne by (intros E; rewrite E in El; discriminate).
  unfold new_Defendant.
  pose proof (validate_name_spec last) as Hl. pose proof (validate_name_spec first) as Hf.
  rewrite Hls in Hl.
  destruct (validate_name_not_empty last) as [l|ml]; [|contradiction].
  destruct (validate_name_not_empty first) as [f|mf].
  - cbn. split; [apply Hl | apply Hf].
  - exists name. rewrite Ep. split; [reflexivity|]. split; [exact Hlne|]. cbn [fst snd].
    destruct Hfs as [E|Ht]; [exact E|].
    rewrite (token_strip _ Ht) in Hf. exact Hf.
Qed.

Lemma parse_csv_row_raises (row : gmap string string) (name : string) :
  kept_name row = Some name ->
  (parse_defendant_name name).2 <> "" ->
  (parse_defendant_name name).1.1 = "" ->
  exists msg, parse_csv_row row = Raises msg.
Proof.
  intros Ha Hl Hf. unfold parse_csv_row. rewrite Ha.
  destruct (parse_defendant_name name) as [[first middle] last]. cbn [fst snd] in *.
  subst first. destruct last as [|c last]; [contradiction|]. cbn [truthy negb].
  unfold new_Defendant.
  destruct (validate_name_not_empty (String c last)); cbn; eauto.
Qed.

Lemma parse_csv_rows_spec (rs : list (gmap string string)) :
  forall acc : list Docket.t,
    match parse_csv_rows rs acc with
    | Returns ds =>
        exists new, ds = acc ++ new
          /\ length new <= length rs
          /\ Forall (fun d => Defendant.last_name (Docket.defendant d) <> ""
                              /\ Defendant.first_name (Docket.defendant d) <> "") new
          /\ Forall (fun row => exists o, parse_csv_row row = Returns o) rs
    | Raises _ => Exists (fun row => exists msg, parse_csv_row row = Raises msg) rs
    end.
Proof.
  induction rs as [|row rs IH]; intros acc.
  - cbn. exists []. rewrite app_nil_r. repeat split; constructor.
  - cbn [parse_csv_rows]. pose proof (parse_csv_row_spec row) as Hrow.
    destruct (parse_csv_row row) as [[d|]|msg] eqn:Er.
    + specialize (IH (acc ++ [d])).
      destruct (parse_csv_rows rs (acc ++ [d])) as [ds|m].
      * destruct IH as (new & -> & Hlen & Hall & Hok).
        exists (d :: new). split; [rewrite <- app_assoc; reflexivity|].
        split; [simpl; lia|]. split; constructor; eauto.
      * apply Exists_cons_tl. exact IH.
    + specialize (IH acc). destruct (parse_csv_rows rs acc) as [ds|m].
      * destruct IH as (new & -> & Hlen & Hall & Hok).
        exists new. split; [reflexivity|]. split; [simpl; lia|].
        split; [exact Hall|]. constructor; eauto.
      * apply Exists_cons_tl. exact IH.
    + apply Exists_cons_hd. eauto.
Qed.

(** X20. A table without the column "Defendants" is rejected. When the
    table is read, there are no more subjects than rows and each has a
    non-empty last and first name. A single row whose name yields a last
    name but no first name (one word only, or nothing after the comma) is
    not passed over: it makes the whole table be rejected with a
    ValueError. *)
Theorem csv_rows_all_or_nothing (df : DataFrame) :
  ("Defendants" ∉ columns df ->
   parse_csv_frame df
   = Raises "Error parsing CSV file: CSV file must contain 'Defendants' column")
  /\ (forall ds, parse_csv_frame df = Returns ds ->
      length ds <= length (rows df)
      /\ Forall (fun d => Defendant.last_name (Docket.defendant d) <> ""
                          /\ Defendant.first_name (Docket.defendant d) <> "") ds)
  /\ (forall row name,
         row ∈ rows df ->
         kept_name row = Some name ->
         (parse_defendant_name name).2 <> "" ->
         (parse_defendant_name name).1.1 = "" ->
         exists msg, parse_csv_frame df = Raises ("Error parsing CSV file: " +:+ msg)).
Proof.
  unfold parse_csv_frame. split; [|split].
  - intros H. rewrite bool_decide_eq_true_2 by exact H. reflexivity.
  - intros ds. destruct (bool_decide _); [discriminate|].
    pose proof (parse_csv_rows_spec (rows df) []) as H.
    destruct (parse_csv_rows (rows df) []) as [ds'|msg]; [|discriminate].
    intros [= <-]. destruct H as (new & -> & Hlen & Hall & _). auto.
  - intros row name Hin Ha Hl Hf.
    destruct (bool_decide _); [eauto|].
    pose proof (parse_csv_rows_spec (rows df) []) as H.
    destruct (parse_csv_rows (rows df) []) as [ds'|msg]; [|eauto].
    destruct H as (_ & _ & _ & _ & Hok). exfalso.
    rewrite Forall_forall in Hok. destruct (Hok row Hin) as (o & Ho).
    destruct (parse_csv_row_raises row name Ha Hl Hf) as (msg & Hmsg).
    rewrite Hmsg in Ho. discriminate.
Qed.

Lemma csv_rows_all_or_nothing_witness :
  exists msg, parse_csv_frame sample_frame = Raises ("Error parsing CSV file: " +:+ msg).
Proof.
  apply (proj2 (proj2 (csv_rows_all_or_nothing sample_frame))
           {[ "CaseNumbers" := "2024GS002"; "Defendants" := "Cher" ]} "Cher").
  - right. right. left.
  - vm_compute. reflexivity.
  - discriminate.
  - reflexivity.
Defined.

(** ** Mugshots of the report *)

Lemma elem_of_collected (results : list CustodyResult.t) :
  forall (urls : gset string) (url : string),
    url ∈ fold_left collect_url results urls
    <-> url ∈ urls
        \/ exists r, r ∈ results
                     /\ CustodyResult.in_custody r = true
                     /\ CustodyResult.mugshot_url r = Some url
                     /\ url <> "".
Proof.
  induction results as [|r results IH]; intros urls url.
  - cbn. split; [auto|]. intros [H|(r & Hr & _)]; [exact H | inversion Hr].
  - cbn [fold_left]. rewrite IH. unfold collect_url. split.
    + intros [H|(r' & Hr' & Hrest)].
      * destruct (CustodyResult.in_custody r) eqn:Ei; cbn [andb] in H; [|auto].
        destruct (CustodyResult.mugshot_url r) as [u|] eqn:Eu; cbn [opt_truthy] in H; [|auto].
        destruct (truthy u) eqn:Et; [|auto].
        apply elem_of_union in H as [H|H]; [|auto].
        apply elem_of_singleton in H. cbn in H. subst u.
        right. exists r. split; [left|]. split; [exact Ei|]. split; [exact Eu|].
        intros E. rewrite E in Et. discriminate.
      * right. exists r'. split; [right; exact Hr' | exact Hrest].
    + intros [H|(r' & Hr' & Hi & Hu & Hne)].
      * left. destruct (_ && _); [apply elem_of_union_r|]; exact H.
      * apply elem_of_cons in Hr' as [->|Hr'].
        -- left. rewrite Hi, Hu. cbn [andb opt_truthy].
           destruct url as [|ch url]; [contradiction|]. cbn [truthy].
           apply elem_of_union_l, elem_of_singleton. reflexivity.
        -- right. exists r'. auto.
Qed.

Lemma keep_image_lookup (get : string -> GetOutcome) (l : list string) :
  forall (images : gmap string (list Byte.byte)) (url : string),
    fold_left (keep_image get) l images !! url
    = match (if decide (url ∈ l) then kept_image get url else None) with
      | Some image => Some image
      | None => images !! url
      end.
Proof.
  induction l as [|u l IH]; intros images url.
  - rewrite decide_False by apply not_elem_of_nil. reflexivity.
  - cbn [fold_left]. rewrite IH. clear IH.
    destruct (decide (url ∈ l)) as [Hin|Hnot].
    + rewrite (decide_True (P := url ∈ u :: l)) by (right; exact Hin).
      destruct (kept_image get url) as [image|] eqn:Ek; [reflexivity|].
      unfold keep_image. destruct (decide (url = u)) as [->|Hne].
      * unfold kept_image in Ek.
        destruct (_download_mugshot get u) as [[|b bs]|]; try reflexivity. discriminate.
      * destruct (_download_mugshot get u) as [[|b bs]|]; try reflexivity.
        apply lookup_insert_ne. congruence.
    + destruct (decide (url = u)) as [->|Hne].
      * rewrite (decide_True (P := u ∈ u :: l)) by left.
        unfold keep_image, kept_image.
        destruct (_download_mugshot get u) as [[|b bs]|]; try reflexivity.
        apply lookup_insert_eq.
      * rewrite (decide_False (P := url ∈ u :: l)).
        2:{ rewrite not_elem_of_cons. auto. }
        unfold keep_image.
        destruct (_download_mugshot get u) as [[|b bs]|]; try reflexivity.
        apply lookup_insert_ne. congruence.
Qed.

Lemma kept_image_Some (get : string -> GetOutcome) (url : string) (bytes : list Byte.byte) :
  url <> "" ->
  kept_image get url = Some bytes <-> get url = GetReply 200 bytes /\ bytes <> [].
Proof.
  intros Hne. unfold kept_image, _download_mugshot.
  destruct url as [|ch url]; [contradiction|]. cbn [truthy negb].
  destruct (get (String ch url)) as [msg|status content].
  - split; [discriminate | intros [H _]; discriminate].
  - destruct (decide (status = 200%Z)) as [->|Hst].
    + rewrite bool_decide_eq_true_2 by reflexivity.
      destruct content as [|b bs].
      * split; [discriminate|]. intros [[= <-] H]. contradiction.
      * split; [intros [= <-]; split; [reflexivity | discriminate]|].
        intros [[= <-] _]. reflexivity.
    + rewrite bool_decide_eq_false_2 by exact Hst.
      split; [discriminate|]. intros [[= E _] _]. contradiction.
Qed.

(** X21. The images downloaded for a report are exactly these: a
    URL has an image iff it is the non-empty mugshot URL of a verdict in
    custody and its GET answers 200 with a non-empty content, which is then
    the image. Neither the order in which the downloads complete nor the
    verdicts that are not in custody have any influence. *)
Theorem mugshots_of_those_in_custody (get : string -> GetOutcome) (done : string -> nat)
    (results : list CustodyResult.t) (url : string) (bytes : list Byte.byte) :
  _download_mugshots_parallel get done results !! url = Some bytes
  <-> (exists r, r ∈ results
                 /\ CustodyResult.in_custody r = true
                 /\ CustodyResult.mugshot_url r = Some url)
      /\ url <> ""
      /\ get url = GetReply 200 bytes
      /\ bytes <> [].
Proof.
  assert (url ∈ mugshot_urls results
          <-> (exists r, r ∈ results /\ CustodyResult.in_custody r = true
                         /\ CustodyResult.mugshot_url r = Some url) /\ url <> "") as Hurls.
  { unfold mugshot_urls. rewrite elem_of_collected. split.
    - intros [H|(r & Hr & Hi & Hu & Hne)]; [apply elem_of_empty in H; contradiction|].
      split; [exists r; auto | exact Hne].
    - intros [(r & Hr & Hi & Hu) Hne]. right. exists r. auto. }
  unfold _download_mugshots_parallel.
  destruct (decide (mugshot_urls results = ∅)) as [E|E].
  - rewrite bool_decide_eq_true_2 by exact E. rewrite lookup_empty.
    split; [discriminate|]. intros (Hr & Hne & _).
    assert (url ∈ mugshot_urls results) as Hin by (apply Hurls; auto).
    rewrite E in Hin. apply elem_of_empty in Hin. contradiction.
  - rewrite bool_decide_eq_false_2 by exact E. rewrite keep_image_lookup, lookup_empty.
    destruct (decide (url ∈ merge_sort (done_before done) (elements (mugshot_urls results))))
      as [Hin|Hnot].
    + rewrite merge_sort_Permutation, elem_of_elements in Hin.
      apply Hurls in Hin as [Hr Hne].
      destruct (kept_image get url) as [image|] eqn:Ek.
      * apply (kept_image_Some get url image Hne) in Ek as [Hg Hb]. split.
        -- intros [= <-]. auto.
        -- intros (_ & _ & Hg' & _). congruence.
      * split; [discriminate|]. intros (_ & _ & Hg & Hb).
        assert (kept_image get url = Some bytes) as Hk
          by (apply kept_image_Some; auto).
        congruence.
    + split; [discriminate|]. intros (Hr & Hne & _). exfalso. apply Hnot.
      rewrite merge_sort_Permutation, elem_of_elements. apply Hurls. auto.
Qed.

(** ** Order of the sheet of all results *)

Lemma key_le_refl (a : bool * string) : key_le a a.
Proof. destruct a as [[] s]; unfold key_le; cbn; reflexivity. Qed.

Lemma key_le_trans (a b c : bool * string) : key_le a b -> key_le b c -> key_le a c.
Proof.
  destruct a as [[] x], b as [[] y], c as [[] z]; unfold key_le; cbn; try tauto;
    intros; etrans; eassumption.
Qed.

Lemma key_le_total (a b : bool * string) : key_le a b \/ key_le b a.
Proof.
  destruct a as [[] x], b as [[] y]; unfold key_le; cbn; auto;
    destruct (String.le_total x y); auto.
Qed.

Lemma insert_sorted_Permutation (r : CustodyResult.t) (l : list CustodyResult.t) :
  insert_sorted r l ≡ₚ r :: l.
Proof.
  induction l as [|x l IH]; [reflexivity|]. cbn [insert_sorted].
  destruct (decide _); [reflexivity|].
  rewrite IH. apply Permutation_swap.
Qed.

Lemma insert_sorted_Sorted (r : CustodyResult.t) (l : list CustodyResult.t) :
  StronglySorted (fun a b => key_le (sort_key a) (sort_key b)) l ->
  StronglySorted (fun a b => key_le (sort_key a) (sort_key b)) (insert_sorted r l).
Proof.
  induction 1 as [|x l Hs IH Hall]; [repeat constructor|].
  cbn [insert_sorted]. destruct (decide (key_le (sort_key r) (sort_key x))) as [Hle|Hnle].
  - constructor; [constructor; assumption|]. constructor; [exact Hle|].
    eapply List.Forall_impl; [|exact Hall]. intros y Hy. eapply key_le_trans; eassumption.
  - constructor; [exact IH|].
    assert (key_le (sort_key x) (sort_key r)) as Hxr
      by (destruct (key_le_total (sort_key x) (sort_key r)); [assumption | contradiction]).
    apply List.Forall_forall. intros y Hy.
    apply (Permutation_in _ (insert_sorted_Permutation r l)) in Hy as [<-|Hy]; [exact Hxr|].
    rewrite List.Forall_forall in Hall. apply Hall. exact Hy.
Qed.

Lemma insert_sorted_stable (k : bool * string) (r : CustodyResult.t)
    (l : list CustodyResult.t) :
  StronglySorted (fun a b => key_le (sort_key a) (sort_key b)) l ->
  List.filter (fun v => bool_decide (sort_key v = k)) (insert_sorted r l)
  = List.filter (fun v => bool_decide (sort_key v = k)) (r :: l).
Proof.
  induction 1 as [|x l Hs IH Hall]; [reflexivity|].
  cbn [insert_sorted]. destruct (decide (key_le (sort_key r) (sort_key x))) as [Hle|Hnle];
    [reflexivity|].
  cbn [List.filter] in *. rewrite IH.
  destruct (decide (sort_key r = k)) as [Er|Er], (decide (sort_key x = k)) as [Ex|Ex].
  - exfalso. apply Hnle. rewrite Er, Ex. apply key_le_refl.
  - rewrite (bool_decide_eq_true_2 _ Er), (bool_decide_eq_false_2 _ Ex). reflexivity.
  - rewrite (bool_decide_eq_false_2 _ Er). reflexivity.
  - rewrite (bool_decide_eq_false_2 _ Er). reflexivity.
Qed.

Lemma sorted_results_Sorted (results : list CustodyResult.t) :
  StronglySorted (fun a b => key_le (sort_key a) (sort_key b)) (sorted_results results).
Proof.
  induction results as [|r results IH]; [constructor|].
  apply insert_sorted_Sorted. exact IH.
Qed.

(** X22. The rows of the sheet of all results are the verdicts, each
    once, with every verdict in custody above every verdict not in custody
    and, among verdicts of the same custody flag, the names in ascending
    order; verdicts with the same flag and the same name keep the order
    they had in the report. *)
Theorem all_results_in_custody_first (results : list CustodyResult.t) :
  sorted_results results ≡ₚ results
  /\ StronglySorted (fun a b => key_le (sort_key a) (sort_key b)) (sorted_results results)
  /\ (forall k, List.filter (fun v => bool_decide (sort_key v = k)) (sorted_results results)
                = List.filter (fun v => bool_decide (sort_key v = k)) results)
  /\ (forall i j x y,
         i < j ->
         sorted_results results !! i = Some x ->
         sorted_results results !! j = Some y ->
         (CustodyResult.in_custody y = true -> CustodyResult.in_custody x = true)
         /\ (CustodyResult.in_custody x = CustodyResult.in_custody y ->
             String.le (CustodyResult.defendant_name x) (CustodyResult.defendant_name y))).
Proof.
  split; [|split; [exact (sorted_results_Sorted results)|split]].
  - induction results as [|r results IH]; [reflexivity|].
    change (sorted_results (r :: results)) with (insert_sorted r (sorted_results results)).
    rewrite insert_sorted_Permutation. constructor. exact IH.
  - intros k. induction results as [|r results IH]; [reflexivity|].
    change (sorted_results (r :: results)) with (insert_sorted r (sorted_results results)).
    rewrite (insert_sorted_stable k r _ (sorted_results_Sorted results)).
    cbn [List.filter]. rewrite IH. reflexivity.
  - intros i j x y Hij Hx Hy.
    pose proof (sorted_results_Sorted results) as Hs.
    assert (key_le (sort_key x) (sort_key y)) as Hle.
    { revert i j Hij Hx Hy. induction Hs as [|z l _ IH Hall]; intros i j Hij Hx Hy.
      - rewrite lookup_nil in Hx. discriminate.
      - destruct j as [|j]; [lia|]. cbn in Hy. destruct i as [|i].
        + cbn in Hx. injection Hx as <-.
          rewrite List.Forall_forall in Hall. apply Hall.
          apply list_elem_of_In, list_elem_of_lookup. eauto.
        + cbn in Hx. apply (IH i j); [lia | assumption | assumption]. }
    unfold key_le, sort_key in Hle. cbn [fst snd] in Hle.
    destruct (CustodyResult.in_custody x), (CustodyResult.in_custody y);
      cbn [negb] in Hle; split; try tauto; try discriminate; auto.
Qed.

(** ** Charges and case status on the in-custody sheet *)

Lemma find_defendant_spec (defendants : list Docket.t) (v : CustodyResult.t) :
  match find_defendant defendants v with
  | Some d =>
      exists l1 l2,
        defendants = l1 ++ d :: l2
        /\ name_and_case d = (CustodyResult.defendant_name v, CustodyResult.case_number v)
        /\ Forall (fun x => name_and_case x
                            <> (CustodyResult.defendant_name v, CustodyResult.case_number v)) l1
  | None =>
      Forall (fun x => name_and_case x
                       <> (CustodyResult.defendant_name v, CustodyResult.case_number v))
        defendants
  end.
Proof.
  unfold find_defendant. induction defendants as [|x l IH]; [constructor|].
  cbn [List.find].
  destruct (String.eqb _ _) eqn:En.
  - destruct (decide (Defendant.case_number (Docket.defendant x) = CustodyResult.case_number v))
      as [Ec|Ec].
    + rewrite bool_decide_eq_true_2 by exact Ec. cbn [andb].
      exists [], l. split; [reflexivity|]. split; [|constructor].
      unfold name_and_case. apply String.eqb_eq in En. rewrite En, Ec. reflexivity.
    + rewrite bool_decide_eq_false_2 by exact Ec. cbn [andb].
      assert (name_and_case x <> (CustodyResult.defendant_name v, CustodyResult.case_number v))
        as Hx by (unfold name_and_case; congruence).
      destruct (List.find _ l) as [d|].
      * destruct IH as (l1 & l2 & -> & Hd & Hl1).
        exists (x :: l1), l2. split; [reflexivity|]. split; [exact Hd|]. constructor; assumption.
      * constructor; assumption.
  - cbn [andb]. apply String.eqb_neq in En.
    assert (name_and_case x <> (CustodyResult.defendant_name v, CustodyResult.case_number v))
      as Hx by (unfold name_and_case; congruence).
    destruct (List.find _ l) as [d|].
    + destruct IH as (l1 & l2 & -> & Hd & Hl1).
      exists (x :: l1), l2. split; [reflexivity|]. split; [exact Hd|]. constructor; assumption.
    + constructor; assumption.
Qed.

(** X23. In the report of a run, every verdict finds a defendant on
    the in-custody sheet: the first defendant of the list with the name and
    case number of the verdict's own subject. When no two defendants share
    name and case number, it is the subject itself, so the charges and case
    status shown are the subject's. *)
Theorem sheet_finds_the_subject (w : World) (source : string) (defendants : list Docket.t)
    (c c' : Client) (r : CustodyReport.t) (i : nat) (v : CustodyResult.t) :
  build_report w source defendants c = (Returns r, c') ->
  CustodyReport.custody_results r !! i = Some v ->
  exists subject found,
    defendants !! i = Some subject
    /\ find_defendant (CustodyReport.defendants_checked r) v = Some found
    /\ name_and_case found = name_and_case subject
    /\ (NoDup (map name_and_case defendants) ->
        found = subject
        /\ original_charges_and_status (CustodyReport.defendants_checked r) v
           = (Docket.charges subject, Docket.case_status subject)).
Proof.
  unfold build_report, mbind, Exec_bind.
  destruct (check_custody_for_all w (map Docket.defendant defendants) c)
    as [[vs|msg] c1] eqn:E; [|discriminate].
  intros [= <- <-]. cbn [CustodyReport.custody_results CustodyReport.defendants_checked].
  intros Hv. apply check_custody_for_all_runs, runs_about in E.
  destruct (Forall2_lookup_r _ _ _ _ _ E Hv) as (d & Hd & (Hn & _ & Hc)).
  rewrite list_lookup_fmap in Hd.
  destruct (defendants !! i) as [subject|] eqn:Es; [|discriminate].
  injection Hd as <-.
  assert (name_and_case subject
          = (CustodyResult.defendant_name v, CustodyResult.case_number v)) as Hkey
    by (unfold name_and_case; congruence).
  pose proof (find_defendant_spec defendants v) as Hfind.
  unfold original_charges_and_status.
  destruct (find_defendant defendants v) as [found|].
  - destruct Hfind as (l1 & l2 & Hsplit & Hfound & Hl1).
    exists subject, found. split; [reflexivity|]. split; [reflexivity|].
    split; [congruence|]. intros Hnd.
    assert (found = subject) as ->; [|auto].
    assert (found ∈ defendants) as Hin1
      by (rewrite Hsplit; apply elem_of_app; right; left).
    assert (subject ∈ defendants) as Hin2 by (apply list_elem_of_lookup; eauto).
    apply list_elem_of_lookup in Hin1 as (j & Hj).
    assert (i = j) as <-; [|congruence].
    eapply NoDup_lookup; [exact Hnd| |]; rewrite list_lookup_fmap.
    + rewrite Es. reflexivity.
    + rewrite Hj. cbn. congruence.
  - exfalso. rewrite Forall_forall in Hfind.
    apply (Hfind subject); [apply list_elem_of_lookup; eauto | exact Hkey].
Qed.

Lemma sheet_finds_the_subject_witness :
  exists subject found,
    sample_dockets !! 1 = Some subject
    /\ find_defendant sample_dockets
         (not_found (Docket.defendant subject) (Some "Error: timed out")) = Some found
    /\ name_and_case found = name_and_case subject.
Proof.
  destruct (sheet_finds_the_subject flaky_world "worklist.pdf" sample_dockets
              (JailAPIClient 3) (snd sample_report_run)
              {| CustodyReport.source_file := Some "worklist.pdf";
                 CustodyReport.defendants_checked := sample_dockets;
                 CustodyReport.custody_results :=
                   verdicts_of (check_custody_for_all flaky_world
                                  (map Docket.defendant sample_dockets) (JailAPIClient 3)) |}
              1 _ ltac:(vm_compute; reflexivity) eq_refl)
    as (subject & found & Hs & Hf & Hk & _).
  exists subject, found. injection Hs as <-. repeat split; [exact Hf | exact Hk].
Defined.

Lemma report_counts_add_up_witness :
  CustodyReport.in_custody_count
    {| CustodyReport.source_file := Some "worklist.pdf";
       CustodyReport.defendants_checked := sample_dockets;
       CustodyReport.custody_results :=
         verdicts_of (check_custody_for_all flaky_world
                        (map Docket.defendant sample_dockets) (JailAPIClient 3)) |}
  + CustodyReport.not_in_custody_count
      {| CustodyReport.source_file := Some "worklist.pdf";
         CustodyReport.defendants_checked := sample_dockets;
         CustodyReport.custody_results :=
           verdicts_of (check_custody_for_all flaky_world
                          (map Docket.defendant sample_dockets) (JailAPIClient 3)) |}
  = 2.
Proof.
  exact (proj1 (proj2 report_counts_add_up flaky_world "worklist.pdf" sample_dockets
                  (JailAPIClient 3) (snd sample_report_run) _
                  ltac:(vm_compute; reflexivity))).
Defined.
